(** * multifit: datasets/create_twittertext.py

    A shallow embedding of the tweet-corpus script: the text normalizer
    [clean_line_mod] with its six regular expressions, the text extraction
    [get_text_from_tweet], the budgeted writer [write_tweettext] and the
    driver [main], followed by the properties proved about them. *)

From Stdlib Require Import ZArith NArith List Ascii String Bool Lia.
From stdpp Require Import gmap strings list fin_maps.
Import ListNotations.

Local Open Scope Z_scope.

(* ===================================================================== *)
(** * Python strings *)
(* ===================================================================== *)

(** A Python [str] is a sequence of Unicode code points. *)
Definition char := N.
Definition str := list char.

(** Code point of an ASCII character, and the [str] of an ASCII literal. *)
Definition ch (a : ascii) : char := N_of_ascii a.
Definition py (s : string) : str := List.map ch (list_ascii_of_string s).

(** The line feed. *)
Definition LF : ascii := ascii_of_nat 10.
Definition newline : str := [ch LF].

Definition chr_eqb (a b : char) : bool := N.eqb a b.
Definition in_range (lo hi : ascii) (c : char) : bool :=
  (N.leb (ch lo) c) && (N.leb c (ch hi)).

(** Python's Unicode database outside ASCII is not part of the repository:
    the three classifications the script relies on are taken as a parameter
    for the code points from 128 on.  For ASCII they are fixed below. *)
Class UnicodeData := {
  uni_isalpha : char -> bool;   (* str.isalpha *)
  uni_isalnum : char -> bool;   (* str.isalnum, the base of \w *)
  uni_isspace : char -> bool    (* str.isspace, the base of \s and strip *)
}.

(** A database that knows no letter, digit or blank beyond ASCII. *)
Definition ascii_only : UnicodeData :=
  {| uni_isalpha := fun _ => false;
     uni_isalnum := fun _ => false;
     uni_isspace := fun _ => false |}.

Definition is_ascii (c : char) : bool := N.ltb c 128.

Definition ascii_letter (c : char) : bool :=
  in_range "a" "z" c || in_range "A" "Z" c.
Definition ascii_digit (c : char) : bool := in_range "0" "9" c.

Section Classes.
Context {U : UnicodeData}.

(** [s.isalpha()] for a one-character string. *)
Definition isalpha (c : char) : bool :=
  if is_ascii c then ascii_letter c else uni_isalpha c.

(** The class [\w] of a [str] pattern: alphanumeric or underscore. *)
Definition isword (c : char) : bool :=
  if is_ascii c then ascii_letter c || ascii_digit c || chr_eqb c (ch "_")
  else uni_isalnum c.

(** The class [\s] of a [str] pattern, also what [str.strip] removes:
    tab, line feed, vertical tab, form feed, carriage return, the four
    separators 0x1c-0x1f and the space. *)
Definition isspace (c : char) : bool :=
  if is_ascii c
  then (N.leb 9 c && N.leb c 13) || (N.leb 28 c && N.leb c 31) || N.eqb c 32
  else uni_isspace c.
End Classes.

(* ===================================================================== *)
(** * Regular expressions, as [re] runs them *)
(* ===================================================================== *)

(** The fragment of the pattern language the script uses.  Groups only
    matter for [mention_regex], whose group 1 is recovered below. *)
Inductive regex :=
| Eps
| Chr (p : char -> bool)          (* a literal or a character class *)
| Seq (r1 r2 : regex)
| Alt (r1 r2 : regex)             (* r1|r2, r1 tried first *)
| Star (r : regex)                (* greedy r* *)
| Rep (n : nat) (r : regex).      (* greedy r{0,n} *)

Definition Plus (r : regex) : regex := Seq r (Star r).
Definition Opt (r : regex) : regex := Rep 1 r.
Definition Lit (c : ascii) : regex := Chr (chr_eqb (ch c)).
Definition Word (s : string) : regex :=
  List.fold_right (fun a r => Seq (Lit a) r) Eps (list_ascii_of_string s).
Definition Any (rs : list regex) : regex :=
  List.fold_right Alt (Chr (fun _ => false)) rs.

(** Greedy iteration of one step [step], at most [fuel] times; an iteration
    that consumes nothing is not taken. *)
Fixpoint star_iter {A} (step : (str -> option A) -> str -> option A)
    (k : str -> option A) (fuel : nat) (s : str) : option A :=
  match fuel with
  | O => k s
  | S fuel' =>
      match step (fun s' => if (length s' <? length s)%nat
                            then star_iter step k fuel' s' else None) s with
      | Some a => Some a
      | None => k s
      end
  end.

(** Greedy iteration at most [n] times. *)
Fixpoint rep_iter {A} (step : (str -> option A) -> str -> option A)
    (k : str -> option A) (n : nat) (s : str) : option A :=
  match n with
  | O => k s
  | S n' =>
      match step (rep_iter step k n') s with
      | Some a => Some a
      | None => k s
      end
  end.

(** Backtracking matcher: [exec r k s] matches [r] at the start of [s] and
    hands the rest of the string to the continuation [k]; when [k] fails the
    next alternative is tried, in the order [re] tries them. *)
Fixpoint exec {A} (r : regex) (k : str -> option A) (s : str) : option A :=
  match r with
  | Eps => k s
  | Chr p =>
      match s with
      | c :: s' => if p c then k s' else None
      | [] => None
      end
  | Seq r1 r2 => exec r1 (exec r2 k) s
  | Alt r1 r2 =>
      match exec r1 k s with
      | Some a => Some a
      | None => exec r2 k s
      end
  | Star r1 => star_iter (exec r1) k (length s) s
  | Rep n r1 => rep_iter (exec r1) k n s
  end.

(** [pattern.match(s)]: the rest of [s] after the match, if any. *)
Definition match_at (r : regex) (s : str) : option str := exec r Some s.

(** [pattern.sub(repl, s)] for a pattern that never matches the empty
    string: scan from the left; where the pattern matches, emit the
    replacement and resume after the match; elsewhere copy one character.
    [m] gives the replacement and the rest of the string. *)
Fixpoint sub_from (m : str -> option (str * str)) (fuel : nat) (s : str) : str :=
  match fuel with
  | O => s
  | S fuel' =>
      match s with
      | [] => []
      | c :: s' =>
          match m s with
          | Some (repl, rest) =>
              if (length rest <? length s)%nat
              then repl ++ sub_from m fuel' rest
              else c :: sub_from m fuel' s'
          | None => c :: sub_from m fuel' s'
          end
      end
  end.

Definition sub (m : str -> option (str * str)) (s : str) : str :=
  sub_from m (length s) s.

(** Replacement by a constant string. *)
Definition sub_const (r : regex) (repl : str) (s : str) : str :=
  sub (fun s => option_map (fun rest => (repl, rest)) (match_at r s)) s.

(* ===================================================================== *)
(** * The patterns (lines 31-36) *)
(* ===================================================================== *)

Definition hex_digit (c : char) : bool :=
  ascii_digit c || in_range "a" "f" c || in_range "A" "F" c.

(** "[$-_@.&+]": the range from '$' to '_', and '@', '.', '&', '+'. *)
Definition url_class1 (c : char) : bool :=
  in_range "$" "_" c || chr_eqb c (ch "@") || chr_eqb c (ch ".")
  || chr_eqb c (ch "&") || chr_eqb c (ch "+").

(** "[!*\(\), ]": the last member is the space. *)
Definition url_class2 (c : char) : bool :=
  chr_eqb c (ch "!") || chr_eqb c (ch "*") || chr_eqb c (ch "(")
  || chr_eqb c (ch ")") || chr_eqb c (ch ",") || chr_eqb c (ch " ").

(** "http[s]?://(?:[a-zA-Z]|[0-9]|[$-_@.&+]|[!*\(\), ]|(?:%[0-9a-fA-F][0-9a-fA-F]))+" *)
Definition url_regex : regex :=
  Seq (Word "http") (Seq (Opt (Lit "s")) (Seq (Word "://")
    (Plus (Any [Chr ascii_letter; Chr ascii_digit; Chr url_class1; Chr url_class2;
                Seq (Lit "%") (Seq (Chr hex_digit) (Chr hex_digit))])))).

Section Patterns.
Context {U : UnicodeData}.

(** "pic\.twitter\.com\/\w+" *)
Definition pic_url_regex : regex :=
  Seq (Word "pic.twitter.com/") (Plus (Chr isword)).

(** Line 33: any spaces, then one or more times a dot and any spaces
    after it, the whole in group 1. *)
Definition multi_dot_regex : regex :=
  Seq (Star (Lit " ")) (Plus (Seq (Lit ".") (Star (Lit " ")))).

(** "@(\w{1,15})( )*(:)*", split at the borders of group 1. *)
Definition mention_handle : regex := Seq (Chr isword) (Rep 14 (Chr isword)).
Definition mention_tail : regex := Seq (Star (Lit " ")) (Star (Lit ":")).
Definition mention_regex : regex :=
  Seq (Lit "@") (Seq mention_handle mention_tail).

(** "#\w*[a-zA-Z]+\w*" *)
Definition hashtag_regex : regex :=
  Seq (Lit "#") (Seq (Star (Chr isword))
    (Seq (Plus (Chr ascii_letter)) (Star (Chr isword)))).

(** "(\s+|\n+)" *)
Definition multi_space_regex : regex :=
  Alt (Plus (Chr isspace)) (Plus (Lit LF)).

(** A match of [mention_regex]: the text of group 1 and the rest of the
    string after the whole match. *)
Definition match_mention (s : str) : option (str * str) :=
  exec (Lit "@")
    (fun s1 => exec mention_handle
       (fun s2 => exec mention_tail
          (fun s3 => Some (take (length s1 - length s2) s1, s3)) s2) s1) s.

(** Lines 38-40. *)
Definition clean_mention (group1 : str) : str :=
  List.map (fun s => if isalpha s then s else ch " ") group1.

(** [line[:3] == 'RT '] and [line[3:]] (lines 57-58). *)
Definition strip_rt (line : str) : str :=
  if decide (take 3 line = py "RT ") then drop 3 line else line.

Definition url_sub : str -> str := sub_const url_regex [].
Definition pic_url_sub : str -> str := sub_const pic_url_regex [].
Definition multi_dot_sub : str -> str := sub_const multi_dot_regex (py " . ").
Definition mention_sub : str -> str :=
  sub (fun s => option_map (fun gr => (clean_mention (fst gr), snd gr))
                  (match_mention s)).
Definition hashtag_sub : str -> str := sub_const hashtag_regex (py " ").
Definition multi_space_sub : str -> str := sub_const multi_space_regex (py " ").

(** Lines 56-65. *)
Definition clean_line_mod (line : str) : str :=
  let line := strip_rt line in
  let cleaned_line := url_sub line in
  let cleaned_line := pic_url_sub cleaned_line in
  let cleaned_line := multi_dot_sub cleaned_line in
  let cleaned_line := mention_sub cleaned_line in
  let cleaned_line := hashtag_sub cleaned_line in
  let cleaned_line := multi_space_sub cleaned_line in
  cleaned_line.
End Patterns.


(* ===================================================================== *)
(** * Records: what [json.loads] returns (lines 67-87) *)
(* ===================================================================== *)

(** A decoded JSON value; an object is a [dict] with [str] keys. *)
#[warnings="-register-all"]
Inductive json :=
| JNull
| JBool (b : bool)
| JNum (literal : str)
| JStr (s : str)
| JArr (items : list json)
| JObj (fields : gmap str json).

(** The exceptions the script can raise while it reads a record. *)
Inductive exn :=
  KeyError | TypeError | AttributeError | JSONDecodeError | FileNotFoundError.

Inductive res (A : Type) :=
| Ok (a : A)
| Raise (e : exn).
Arguments Ok {A} a.
Arguments Raise {A} e.

(** Sequencing: an exception ends the computation. *)
#[global] Instance res_bind : MBind res := fun A B f r =>
  match r with
  | Ok a => f a
  | Raise e => Raise e
  end.

(** [needle in hay] for strings: [needle] occurs as a substring. *)
Fixpoint is_prefix (p s : str) : bool :=
  match p, s with
  | [], _ => true
  | a :: p', b :: s' => chr_eqb a b && is_prefix p' s'
  | _ :: _, [] => false
  end.

Fixpoint is_substring (needle hay : str) : bool :=
  is_prefix needle hay ||
  match hay with
  | [] => false
  | _ :: hay' => is_substring needle hay'
  end.

Definition is_str (k : str) (v : json) : bool :=
  match v with
  | JStr s => bool_decide (s = k)
  | _ => false
  end.

(** [k in v] for a [str] key [k]. *)
Definition py_in (k : str) (v : json) : res bool :=
  match v with
  | JObj fields => Ok (bool_decide (is_Some (fields !! k)))
  | JStr s => Ok (is_substring k s)
  | JArr items => Ok (existsb (is_str k) items)
  | JNull | JBool _ | JNum _ => Raise TypeError
  end.

(** [v[k]] for a [str] key [k]. *)
Definition py_getitem (v : json) (k : str) : res json :=
  match v with
  | JObj fields =>
      match fields !! k with
      | Some x => Ok x
      | None => Raise KeyError
      end
  | _ => Raise TypeError
  end.

(** [k in v.keys()]. *)
Definition py_in_keys (k : str) (v : json) : res bool :=
  match v with
  | JObj fields => Ok (bool_decide (is_Some (fields !! k)))
  | _ => Raise AttributeError
  end.

Definition k_retweeted_status : str := py "retweeted_status".
Definition k_extended_tweet : str := py "extended_tweet".
Definition k_full_text : str := py "full_text".
Definition k_text : str := py "text".

(** Lines 67-78. *)
Definition get_text_from_tweet (tweet : json) : res json :=
  is_rt ← py_in_keys k_retweeted_status tweet;
  if is_rt : bool then
    rs ← py_getitem tweet k_retweeted_status;
    has_ext ← py_in k_extended_tweet rs;
    if has_ext : bool then
      rs' ← py_getitem tweet k_retweeted_status;
      et ← py_getitem rs' k_extended_tweet;
      py_getitem et k_full_text
    else
      rs' ← py_getitem tweet k_retweeted_status;
      py_getitem rs' k_text
  else
    has_ext ← py_in k_extended_tweet tweet;
    if has_ext : bool then
      et ← py_getitem tweet k_extended_tweet;
      py_getitem et k_full_text
    else
      py_getitem tweet k_text.

(** The four places a text can come from, by the paths of the source. *)
Definition field (k : str) (v : json) : option json :=
  match v with
  | JObj fields => fields !! k
  | _ => None
  end.

Definition reshared_extended_text (tweet : json) : option json :=
  (field k_retweeted_status tweet ≫= field k_extended_tweet) ≫= field k_full_text.
Definition reshared_short_text (tweet : json) : option json :=
  field k_retweeted_status tweet ≫= field k_text.
Definition own_extended_text (tweet : json) : option json :=
  field k_extended_tweet tweet ≫= field k_full_text.
Definition own_short_text (tweet : json) : option json :=
  field k_text tweet.

(** The precedence rule as the specification words it: the first of the
    four sources that is present. *)
Definition first_present (sources : list (option json)) : option json :=
  List.fold_right (fun o acc => match o with Some v => Some v | None => acc end)
    None sources.

Definition precedence_rule (tweet : json) : option json :=
  first_present [reshared_extended_text tweet; reshared_short_text tweet;
                 own_extended_text tweet; own_short_text tweet].

(** The shape of a record of the export: an object with its short text, whose
    extended part, when there is one, carries the full text. *)
Definition record_shape (v : json) : Prop :=
  is_Some (field k_text v) /\
  (is_Some (field k_extended_tweet v) ->
   is_Some (field k_extended_tweet v ≫= field k_full_text)).

(** A well-formed raw record: a record whose reshared record, when there is
    one, is a record too. *)
Definition raw_record (tweet : json) : Prop :=
  record_shape tweet /\
  (forall rs, field k_retweeted_status tweet = Some rs -> record_shape rs).

Section Texts.
Context {U : UnicodeData}.

(** What [clean_line_mod] does with a value that need not be a string:
    slicing and [sub] raise on anything else. *)
Definition clean_value (v : json) : res str :=
  match v with
  | JStr s => Ok (clean_line_mod s)
  | _ => Raise TypeError
  end.

(** The body of the inner loop of [get_texts] for one line of a file;
    [None] is a line that [json.loads] rejects. *)
Definition text_of_line (line : option json) : res str :=
  match line with
  | None => Raise JSONDecodeError
  | Some tweet =>
      text ← get_text_from_tweet tweet;
      clean_value text
  end.

(** Lines 80-87: the texts the generator yields, for the files of the
    directory in the order [iterdir] gives them.  The generator is lazy;
    a line that raises ends the run when it is reached. *)
Fixpoint get_texts_lines (lines : list (option json)) : res (list str) :=
  match lines with
  | [] => Ok []
  | line :: rest =>
      text ← text_of_line line;
      texts ← get_texts_lines rest;
      Ok (text :: texts)
  end.

Definition get_texts (root : list (list (option json))) : res (list str) :=
  get_texts_lines (List.concat root).
End Texts.

(* ===================================================================== *)
(** * The budgeted writer (lines 89-115) *)
(* ===================================================================== *)

(** [MosesTokenizer(lang)] comes from sacremoses; the script only calls
    [mt.tokenize(text, return_str=True, protected_patterns=[])]. *)
Class MosesTokenizer := { tokenize : str -> str }.

(** A tokenizer that returns its input, for examples. *)
Definition verbatim : MosesTokenizer := {| tokenize := fun text => text |}.

Fixpoint drop_while (p : char -> bool) (s : str) : str :=
  match s with
  | [] => []
  | c :: s' => if p c then drop_while p s' else s
  end.

(** [s.split(sep)] for a one-character separator: never an empty list. *)
Fixpoint split (sep : char) (s : str) : list str :=
  match s with
  | [] => [[]]
  | c :: s' =>
      if chr_eqb c sep then [] :: split sep s'
      else match split sep s' with
           | w :: ws => (c :: w) :: ws
           | [] => [[c]]
           end
  end.

Definition nonempty (token : str) : bool :=
  match token with
  | [] => false
  | _ :: _ => true
  end.

(** A file path, by its components. *)
Definition path := list string.

Inductive mode := W | A.

(** The lines the script prints. *)
Inductive message :=
| Writing (file_path : path)
| Processed (i : Z) (total_num_tokens : Z)
| Summary (file_path : path) (documents : Z) (tokens : Z)
| Copying (src dst1 dst2 : path).

(** The variables of one call of [write_tweettext], with the text written
    to [f_out] so far and what the call has printed. *)
Record pass := {
  f_out : str;
  total_num_tokens : Z;
  i : Z;
  printed : list message
}.

Inductive control := Continue | Break.

(** The files on disk, the texts the shared generator has still to yield,
    and the standard output. *)
Record world := {
  files : gmap path str;
  text_iter : list str;
  stdout : list message
}.

Section Writer.
Context {U : UnicodeData} {mt : MosesTokenizer}.

(** [text.strip()]. *)
Definition strip (text : str) : str :=
  rev (drop_while isspace (rev (drop_while isspace text))).

(** Lines 98-101: the tokenized text and [num_tokens_tweet]. *)
Definition tokenized_of (text : str) : str := tokenize (strip text).

Definition tokens_of (text : str) : list str :=
  List.filter nonempty (split (ch " ") (tokenized_of text)).

Definition num_tokens_tweet_of (text : str) : Z :=
  0 + (Z.of_nat (length (tokens_of text)) + 1).

(** [num_tokens is not None and total_num_tokens > num_tokens]. *)
Definition over_budget (num_tokens : option Z) (total : Z) : bool :=
  match num_tokens with
  | Some n => n <? total
  | None => false
  end.

(** Lines 95-113: the body of the loop for the pair [(idx, text)] that
    [enumerate] yields. *)
Definition body (num_tokens : option Z) (num_tokens_tweet_min : Z)
    (idx : Z) (text : str) (st : pass) : control * pass :=
  let st := {| f_out := f_out st; total_num_tokens := total_num_tokens st;
               i := idx; printed := printed st |} in
  let tokenized := tokenized_of text in
  let num_tokens_tweet := num_tokens_tweet_of text in
  if num_tokens_tweet <? num_tokens_tweet_min then (Continue, st)
  else
    let st := {| f_out := f_out st ++ (tokenized ++ newline);
                 total_num_tokens := total_num_tokens st + (num_tokens_tweet + 1);
                 i := i st; printed := printed st |} in
    if over_budget num_tokens (total_num_tokens st) then (Break, st)
    else if (i st mod 10000 =? 0) && (0 <? i st)
    then (Continue,
          {| f_out := f_out st; total_num_tokens := total_num_tokens st;
             i := i st;
             printed := printed st ++ [Processed (i st) (total_num_tokens st)] |})
    else (Continue, st).

(** Line 94: the loop over [enumerate(text_iter)], from index [idx] on.
    Returns the variables at the end, the texts not yet drawn from the
    generator, and whether the loop was left by [break]. *)
Fixpoint loop (num_tokens : option Z) (num_tokens_tweet_min : Z)
    (idx : Z) (texts : list str) (st : pass) : pass * list str * bool :=
  match texts with
  | [] => (st, [], false)
  | text :: rest =>
      match body num_tokens num_tokens_tweet_min idx text st with
      | (Break, st') => (st', rest, true)
      | (Continue, st') => loop num_tokens num_tokens_tweet_min (idx + 1) rest st'
      end
  end.

(** [open(file_path, mode)]: what the file holds before the first write. *)
Definition open_file (fs : gmap path str) (file_path : path) (m : mode) : str :=
  match m with
  | W => []
  | A => default [] (fs !! file_path)
  end.

(** The variables when the loop starts (lines 90-93). *)
Definition start (w : world) (file_path : path) (m : mode) : pass :=
  {| f_out := open_file (files w) file_path m;
     total_num_tokens := 0;
     i := 0;
     printed := [Writing file_path] |}.

(** Lines 114-115, after the [with] block has closed the file. *)
Definition finish (w : world) (file_path : path) (r : pass * list str * bool) : world :=
  let '(st, rest, _) := r in
  {| files := <[file_path := f_out st]> (files w);
     text_iter := rest;
     stdout := stdout w ++ printed st
               ++ [Summary file_path (i st) (total_num_tokens st)] |}.

(** Lines 89-115. *)
Definition write_tweettext (file_path : path) (num_tokens : option Z)
    (m : mode) (num_tokens_tweet_min : Z) (w : world) : world :=
  finish w file_path
    (loop num_tokens num_tokens_tweet_min 0 (text_iter w) (start w file_path m)).
End Writer.

(* ===================================================================== *)
(** * The driver (lines 118-152) *)
(* ===================================================================== *)

(** [shutil.copyfile(src, dst)]. *)
Definition copyfile (src dst : path) (w : world) : res world :=
  match files w !! src with
  | Some content =>
      Ok {| files := <[dst := content]> (files w);
            text_iter := text_iter w;
            stdout := stdout w |}
  | None => Raise FileNotFoundError
  end.

Definition print (msg : message) (w : world) : world :=
  {| files := files w; text_iter := text_iter w; stdout := stdout w ++ [msg] |}.

(** The parsed command line. *)
Record arguments := {
  output : path;
  lang : string;
  tokens_min : Z
}.

Definition tokens_file (args : arguments) (split : string) : string :=
  (lang args ++ ".tweets." ++ split ++ ".tokens")%string.

Definition sml_tweets (args : arguments) : path := output args ++ [(lang args ++ "-2")%string].
Definition lrg_tweets (args : arguments) : path := output args ++ [(lang args ++ "-100")%string].
Definition all_tweets (args : arguments) : path := output args ++ [(lang args ++ "-all")%string].

Definition splits : list string := ["train"; "valid"; "test"]%string.
Definition token_nums : list Z := [2000000; 200000; 200000].

Section Driver.
Context {U : UnicodeData} {mt : MosesTokenizer}.

(** Lines 138-145: the body of the loop over the splits. *)
Definition split_body (args : arguments) (w : world) (st : string * Z) : res world :=
  let '(split, token_num) := st in
  let sml_file_path := sml_tweets args ++ [tokens_file args split] in
  let w := write_tweettext sml_file_path (Some token_num) W (tokens_min args) w in
  let lrg_file_path := lrg_tweets args ++ [tokens_file args split] in
  let all_file_path := all_tweets args ++ [tokens_file args split] in
  let w := print (Copying sml_file_path lrg_file_path all_file_path) w in
  w ← copyfile sml_file_path lrg_file_path w;
  copyfile sml_file_path all_file_path w.

Fixpoint for_each {X} (f : world -> X -> res world) (xs : list X) (w : world) : res world :=
  match xs with
  | [] => Ok w
  | x :: xs' => w' ← f w x; for_each f xs' w'
  end.

(** Lines 133-152, on the files [fs] already on disk and the records of
    the input directory.  The directories are taken to exist (lines
    119-131 create them), and the texts are drawn here before the first
    pass: a record that raises ends the run, whenever it is reached.  A
    write is taken to succeed, so [Ok] gives what a run that completes
    leaves behind; a text that cannot be encoded, which stops the script
    at its write, is not covered. *)
Definition main (args : arguments) (fs : gmap path str)
    (root : list (list (option json))) : res world :=
  texts ← get_texts root;
  let w := {| files := fs; text_iter := texts; stdout := [] |} in
  w ← for_each (split_body args) (zip splits token_nums) w;
  let lrg_tweets_train := lrg_tweets args ++ [tokens_file args "train"] in
  let w := write_tweettext lrg_tweets_train (Some 98000000) A (tokens_min args) w in
  let all_tweets_train := all_tweets args ++ [tokens_file args "train"] in
  w ← copyfile lrg_tweets_train all_tweets_train w;
  Ok (write_tweettext all_tweets_train None A (tokens_min args) w).
End Driver.

(* ===================================================================== *)
(** * Auxiliary definitions for the statements *)
(* ===================================================================== *)

(** At most [n] leading characters of class [p]: taken, and left. *)
Fixpoint take_upto (n : nat) (p : char -> bool) (s : str) : str :=
  match n, s with
  | S n', c :: s' => if p c then c :: take_upto n' p s' else []
  | _, _ => []
  end.

Fixpoint drop_upto (n : nat) (p : char -> bool) (s : str) : str :=
  match n, s with
  | S n', c :: s' => if p c then drop_upto n' p s' else s
  | _, _ => s
  end.

(** The leading characters of class [p]. *)
Fixpoint take_while (p : char -> bool) (s : str) : str :=
  match s with
  | c :: s' => if p c then c :: take_while p s' else []
  | [] => []
  end.

(** The first character of [s] is of class [p]. *)
Definition starts_with (p : char -> bool) (s : str) : bool :=
  match s with
  | c :: _ => p c
  | [] => false
  end.

Definition is_space : char -> bool := chr_eqb (ch " ").
Definition is_colon : char -> bool := chr_eqb (ch ":").

Section Readings.
Context {U : UnicodeData}.

(** What [mention_regex] matches at the start of [s], read off the
    pattern: group 1 and the rest of the string. *)
Definition mention_at (s : str) : option (str * str) :=
  match s with
  | c :: c1 :: s2 =>
      if chr_eqb (ch "@") c && isword c1
      then Some (c1 :: take_upto 14 isword s2,
                 drop_while is_colon (drop_while is_space (drop_upto 14 isword s2)))
      else None
  | _ => None
  end.

(** What [hashtag_regex] matches at the start of [s]: the hash sign and the
    whole run of word characters after it, when the run holds an ASCII
    letter on which the middle of the pattern can stand. *)
Definition hashtag_at (s : str) : option str :=
  match s with
  | c :: s' =>
      if chr_eqb (ch "#") c && existsb ascii_letter (take_while isword s')
      then Some (drop_while isword s')
      else None
  | [] => None
  end.

(** No hashtag starts anywhere in [s]. *)
Fixpoint tagless (s : str) : bool :=
  match s with
  | [] => true
  | c :: s' =>
      negb (chr_eqb (ch "#") c && existsb ascii_letter (take_while isword s'))
      && tagless s'
  end.

(** What [multi_space_regex] matches at the start of [s]. *)
Definition space_at (s : str) : option str :=
  match s with
  | c :: s' => if isspace c then Some (drop_while isspace s') else None
  | [] => None
  end.

(** The sibling normalizer [clean_line] (lines 42-54), which differs from
    [clean_line_mod] in the mention step only: its replacement is the
    template with a space, group 1 and a space. *)
Definition mention_sub_template : str -> str :=
  sub (fun s => option_map (fun gr => (py " " ++ fst gr ++ py " ", snd gr))
                  (match_mention s)).

Definition clean_line (line : str) : str :=
  let line := strip_rt line in
  let cleaned_line := url_sub line in
  let cleaned_line := pic_url_sub cleaned_line in
  let cleaned_line := multi_dot_sub cleaned_line in
  let cleaned_line := mention_sub_template cleaned_line in
  let cleaned_line := hashtag_sub cleaned_line in
  let cleaned_line := multi_space_sub cleaned_line in
  cleaned_line.

(** A mention marker in front of [rest]: a handle [h] of 1 to 15 word
    characters, as long as the pattern can take it, then the spaces [sp]
    and the colons [col], as many as there are. *)
Definition is_marker (h sp col rest : str) : bool :=
  nonempty h && forallb isword h && (length h <=? 15)%nat
  && ((length h =? 15)%nat || negb (starts_with isword (sp ++ col ++ rest)))
  && forallb is_space sp && forallb is_colon col
  && negb (starts_with is_space (col ++ rest))
  && negb (starts_with is_colon rest).

(** The text that reaches the mention step of [clean_line_mod]. *)
Definition before_mentions (line : str) : str :=
  multi_dot_sub (pic_url_sub (url_sub (strip_rt line))).

(** The characters on which the steps before the last one act. *)
Definition marker_chars : list char := [ch "."; ch ":"; ch "@"].
End Readings.

Section Passes.
Context {U : UnicodeData} {mt : MosesTokenizer}.

(** The line a record contributes to the file when it is accepted. *)
Definition line_of (text : str) : str := tokenized_of text ++ newline.

(** A pass over [texts] on an empty file: the text written and the texts
    left in the generator. *)
Definition fresh : pass :=
  {| f_out := []; total_num_tokens := 0; i := 0; printed := [] |}.

Definition drain (num_tokens : option Z) (num_tokens_tweet_min : Z)
    (texts : list str) : str * list str :=
  let '(st, rest, _) := loop num_tokens num_tokens_tweet_min 0 texts fresh in
  (f_out st, rest).
End Passes.

(** A text of [n] one-letter words. *)
Definition words (n : nat) : str := List.concat (repeat (py "w ") n).

(** Five texts of 11, 4, 19, 7 and 14 words. *)
Definition scenario_texts : list str :=
  [words 11; words 4; words 19; words 7; words 14].

Definition out_tokens : path := ["out.tokens"%string].

(** A record that reshares another one, whose text is extended. *)
Definition sample_tweet : json :=
  JObj (<[k_text := JStr (py "short")]>
        (<[k_retweeted_status :=
             JObj (<[k_text := JStr (py "rt short")]>
                   (<[k_extended_tweet :=
                        JObj (<[k_full_text := JStr (py "rt full")]> ∅)]> ∅))]> ∅)).

(** A record with its short text only. *)
Definition plain_tweet (text : str) : json := JObj (<[k_text := JStr text]> ∅).

(** An input directory of one file of three records. *)
Definition sample_root : list (list (option json)) :=
  [[Some (plain_tweet (words 11)); Some (plain_tweet (words 4));
    Some (plain_tweet (words 19))]].

Definition sample_args : arguments :=
  {| output := ["data"%string]; lang := "en"%string; tokens_min := 10 |}.

(** A world with nothing on disk and the given texts to come. *)
Definition world_of (texts : list str) : world :=
  {| files := ∅; text_iter := texts; stdout := [] |}.

(** The reshared record of [sample_tweet], a record that reshares it and has
    no text of its own, and a record whose extended part is empty. *)
Definition reshared_sample : json :=
  JObj (<[k_text := JStr (py "rt short")]>
        (<[k_extended_tweet := JObj (<[k_full_text := JStr (py "rt full")]> ∅)]> ∅)).

Definition resharing_fields : gmap str json :=
  <[k_text := JStr (py "short")]> (<[k_retweeted_status := reshared_sample]> ∅).

Definition bare_resharing_fields : gmap str json :=
  <[k_retweeted_status := reshared_sample]> ∅.

Definition truncated_fields : gmap str json :=
  <[k_text := JStr (py "short")]> (<[k_extended_tweet := JObj ∅]> ∅).

(** The characters the group of [url_regex] takes one at a time. *)
Definition url_char (c : char) : bool :=
  ascii_letter c || ascii_digit c || url_class1 c || url_class2 c.

Definition is_dot : char -> bool := chr_eqb (ch ".").

Definition dot_or_space (c : char) : bool := is_dot c || is_space c.

(** What [multi_dot_regex] matches at the start of [s], read off the
    pattern: the spaces, a dot, and every dot and space after it. *)
Definition dot_at (s : str) : option str :=
  match drop_while is_space s with
  | c :: r => if is_dot c then Some (drop_while dot_or_space r) else None
  | [] => None
  end.

(** No match of [r] starts at any position of [s]. *)
Fixpoint matchless (r : regex) (s : str) : bool :=
  match s with
  | [] => true
  | _ :: s' =>
      match match_at r s with
      | Some _ => false
      | None => matchless r s'
      end
  end.

(** Every dot of [s] has a space before it and a space after it, and no
    dot follows that space; [prev] tells whether a space stands before
    [s]. *)
Fixpoint dots_apart (prev : bool) (s : str) : bool :=
  match s with
  | [] => true
  | c :: s' =>
      (if is_dot c
       then prev && match s' with
                    | e :: s'' => is_space e && negb (starts_with is_dot s'')
                    | [] => false
                    end
       else true)
      && dots_apart (is_space c) s'
  end.

(** In a text with single blanks: every run of dots is a space, a dot and
    a space. *)
Definition canonical_dots (s : str) : bool := dots_apart false s.

(** Every dot of [s] is followed by a space. *)
Fixpoint dots_spaced (s : str) : bool :=
  match s with
  | [] => true
  | c :: s' => (if is_dot c then starts_with is_space s' else true) && dots_spaced s'
  end.

Section Shapes.
Context {U : UnicodeData}.

(** Every blank of [s] is a space, and no two blanks touch. *)
Fixpoint single_spaced (s : str) : bool :=
  match s with
  | [] => true
  | c :: s' =>
      (if isspace c then chr_eqb (ch " ") c && negb (starts_with isspace s') else true)
      && single_spaced s'
  end.
End Shapes.

Section Accounts.
Context {U : UnicodeData} {mt : MosesTokenizer}.

(** The gate of lines 103-105, as a test on the text. *)
Definition accepted (num_tokens_tweet_min : Z) (text : str) : bool :=
  negb (num_tokens_tweet_of text <? num_tokens_tweet_min).

(** The lines and the count that the accepted ones of [texts] contribute. *)
Definition lines_of (num_tokens_tweet_min : Z) (texts : list str) : str :=
  List.concat (List.map line_of (List.filter (accepted num_tokens_tweet_min) texts)).

Definition count_of (num_tokens_tweet_min : Z) (texts : list str) : Z :=
  List.fold_right Z.add 0
    (List.map (fun text => num_tokens_tweet_of text + 1)
       (List.filter (accepted num_tokens_tweet_min) texts)).
End Accounts.

(** The nine files [main] writes. *)
Definition corpus_files (args : arguments) : list path :=
  List.flat_map
    (fun tier : arguments -> path =>
       List.map (fun split => tier args ++ [tokens_file args split]) splits)
    [sml_tweets; lrg_tweets; all_tweets].

(* ===================================================================== *)
(** * Facts about the matcher *)
(* ===================================================================== *)

Section Matcher.
Context {A : Type}.
Implicit Types (k : str -> option A) (p : char -> bool) (s : str).

(** A match leaves a suffix of the string to the continuation. *)
Lemma star_iter_suffix (step : (str -> option A) -> str -> option A) :
  (forall k s a, step k s = Some a -> exists s', suffix s' s /\ k s' = Some a) ->
  forall fuel k s a, star_iter step k fuel s = Some a ->
    exists s', suffix s' s /\ k s' = Some a.
Proof.
  intros Hstep fuel. induction fuel as [|fuel IH]; intros k s a H; simpl in H.
  - exists s. split; [reflexivity | exact H].
  - destruct (step _ s) as [a'|] eqn:E.
    + injection H as ->. apply Hstep in E as (s1 & Hs1 & E).
      destruct (length s1 <? length s)%nat; [|discriminate].
      apply IH in E as (s2 & Hs2 & E).
      exists s2. split; [etrans; eassumption | exact E].
    + exists s. split; [reflexivity | exact H].
Qed.

Lemma rep_iter_suffix (step : (str -> option A) -> str -> option A) :
  (forall k s a, step k s = Some a -> exists s', suffix s' s /\ k s' = Some a) ->
  forall n k s a, rep_iter step k n s = Some a ->
    exists s', suffix s' s /\ k s' = Some a.
Proof.
  intros Hstep n. induction n as [|n IH]; intros k s a H; simpl in H.
  - exists s. split; [reflexivity | exact H].
  - destruct (step _ s) as [a'|] eqn:E.
    + injection H as ->. apply Hstep in E as (s1 & Hs1 & E).
      apply IH in E as (s2 & Hs2 & E).
      exists s2. split; [etrans; eassumption | exact E].
    + exists s. split; [reflexivity | exact H].
Qed.

Lemma exec_suffix (r : regex) :
  forall k s a, exec r k s = Some a -> exists s', suffix s' s /\ k s' = Some a.
Proof.
  induction r as [|p|r1 IH1 r2 IH2|r1 IH1 r2 IH2|r1 IH1|n r1 IH1];
    intros k s a H; simpl in H.
  - exists s. split; [reflexivity | exact H].
  - destruct s as [|c s']; [discriminate|].
    destruct (p c); [|discriminate].
    exists s'. split; [apply suffix_cons_r; reflexivity | exact H].
  - apply IH1 in H as (s1 & Hs1 & H). apply IH2 in H as (s2 & Hs2 & H).
    exists s2. split; [etrans; eassumption | exact H].
  - destruct (exec r1 k s) as [a'|] eqn:E.
    + injection H as ->. apply IH1 in E. exact E.
    + apply IH2 in H. exact H.
  - eapply star_iter_suffix; eassumption.
  - eapply rep_iter_suffix; eassumption.
Qed.

(** A greedy run over one character class, before a continuation that
    cannot fail, takes every leading character of the class. *)
Lemma star_iter_chr p k :
  (forall s, is_Some (k s)) ->
  forall fuel s, (length s <= fuel)%nat ->
    star_iter (exec (Chr p)) k fuel s = k (drop_while p s).
Proof.
  intros Hk fuel. induction fuel as [|fuel IH]; intros s Hlen.
  - destruct s; [reflexivity | simpl in Hlen; lia].
  - destruct s as [|c s']; simpl; [reflexivity|].
    destruct (p c); [|reflexivity].
    rewrite (proj2 (Nat.ltb_lt _ _)) by lia.
    rewrite IH by (simpl in Hlen; lia).
    destruct (Hk (drop_while p s')) as [a ->]. reflexivity.
Qed.

Lemma exec_star_chr p k s :
  (forall s, is_Some (k s)) ->
  exec (Star (Chr p)) k s = k (drop_while p s).
Proof. intros Hk. simpl. apply star_iter_chr; [exact Hk | lia]. Qed.

Lemma rep_iter_chr p k :
  (forall s, is_Some (k s)) ->
  forall n s, rep_iter (exec (Chr p)) k n s = k (drop_upto n p s).
Proof.
  intros Hk n. induction n as [|n IH]; intros s.
  - destruct s; reflexivity.
  - destruct s as [|c s']; simpl; [reflexivity|].
    destruct (p c); [|reflexivity].
    rewrite IH. destruct (Hk (drop_upto n p s')) as [a ->]. reflexivity.
Qed.
End Matcher.

(* ===================================================================== *)
(** * Facts about substitution *)
(* ===================================================================== *)

Section Substitution.
Implicit Types (m : str -> option (str * str)) (s : str).

Lemma sub_from_fuel m : forall fuel fuel' s,
  (length s <= fuel)%nat -> (length s <= fuel')%nat ->
  sub_from m fuel s = sub_from m fuel' s.
Proof.
  induction fuel as [|fuel IH]; intros fuel' s H H'.
  - destruct s; [|simpl in H; lia]. destruct fuel'; reflexivity.
  - destruct fuel' as [|fuel'].
    + destruct s; [reflexivity | simpl in H'; lia].
    + destruct s as [|c s']; [reflexivity|]. simpl in H, H'. simpl.
      destruct (m (c :: s')) as [[repl rest]|].
      * destruct (length rest <? S (length s'))%nat eqn:E.
        -- apply Nat.ltb_lt in E. f_equal. apply IH; lia.
        -- f_equal. apply IH; lia.
      * f_equal. apply IH; lia.
Qed.

Lemma sub_nil m : sub m [] = [].
Proof. reflexivity. Qed.

(** The equation of [sub]: one step of the scan. *)
Lemma sub_cons m c s :
  sub m (c :: s) =
  match m (c :: s) with
  | Some (repl, rest) =>
      if (length rest <? length (c :: s))%nat
      then repl ++ sub m rest
      else c :: sub m s
  | None => c :: sub m s
  end.
Proof.
  unfold sub at 1. simpl.
  destruct (m (c :: s)) as [[repl rest]|].
  - destruct (length rest <? S (length s))%nat eqn:E.
    + apply Nat.ltb_lt in E. f_equal. apply sub_from_fuel; lia.
    + reflexivity.
  - reflexivity.
Qed.

Lemma sub_ext m m' : (forall s, m s = m' s) -> forall s, sub m s = sub m' s.
Proof.
  intros Hm s. remember (length s) as n eqn:Hn.
  revert s Hn. induction n as [n IH] using lt_wf_ind. intros s ->.
  destruct s as [|c s]; [reflexivity|].
  rewrite !sub_cons, <- Hm.
  destruct (m (c :: s)) as [[repl rest]|].
  - destruct (length rest <? length (c :: s))%nat eqn:E.
    + apply Nat.ltb_lt in E. f_equal. eapply IH; [exact E | reflexivity].
    + f_equal. eapply IH; [|reflexivity]. simpl; lia.
  - f_equal. eapply IH; [|reflexivity]. simpl; lia.
Qed.

(** A pattern whose matches all contain the character [x] leaves a string
    without [x] as it is. *)
Lemma sub_absent m (x : char) :
  (forall t, is_Some (m t) -> x ∈ t) ->
  forall s, x ∉ s -> sub m s = s.
Proof.
  intros Hm s. induction s as [|c s IH]; intros Hx; [reflexivity|].
  rewrite sub_cons.
  destruct (m (c :: s)) as [[repl rest]|] eqn:E.
  - exfalso. apply Hx, Hm. rewrite E. eexists; reflexivity.
  - f_equal. apply IH. intros Hin. apply Hx. right. exact Hin.
Qed.

(** Scanning up to a character [x] at which no match of an earlier start
    can end or continue: the scan of the two parts, one after the other. *)
Lemma sub_app_boundary m (x : char) (t : str) :
  (forall p, p <> [] ->
     m (p ++ x :: t) =
     option_map (fun gr => (fst gr, snd gr ++ x :: t)) (m p)) ->
  (forall p repl rest, m p = Some (repl, rest) -> (length rest < length p)%nat) ->
  forall p, sub m (p ++ x :: t) = sub m p ++ sub m (x :: t).
Proof.
  intros Hm Hshort p. remember (length p) as n eqn:Hn.
  revert p Hn. induction n as [n IH] using lt_wf_ind. intros p ->.
  destruct p as [|c p]; [reflexivity|].
  change ((c :: p) ++ x :: t) with (c :: (p ++ x :: t)).
  rewrite (sub_cons m c (p ++ x :: t)), (sub_cons m c p).
  change (c :: (p ++ x :: t)) with ((c :: p) ++ x :: t).
  rewrite Hm by discriminate.
  destruct (m (c :: p)) as [[repl rest]|] eqn:E; simpl option_map.
  - pose proof (Hshort _ _ _ E) as Hlt. cbn [fst snd].
    rewrite (proj2 (Nat.ltb_lt (length rest) (length (c :: p)))) by exact Hlt.
    rewrite (proj2 (Nat.ltb_lt (length (rest ++ x :: t))
                      (length ((c :: p) ++ x :: t)))).
    2:{ rewrite !length_app. simpl in *. lia. }
    rewrite <- app_assoc. f_equal. eapply IH; [exact Hlt | reflexivity].
  - simpl. f_equal. eapply IH; [|reflexivity]. simpl; lia.
Qed.
End Substitution.

(* ===================================================================== *)
(** * Facts about the patterns *)
(* ===================================================================== *)

Lemma exec_seq {A} (r1 r2 : regex) (k : str -> option A) (s : str) :
  exec (Seq r1 r2) k s = exec r1 (exec r2 k) s.
Proof. reflexivity. Qed.

Lemma exec_alt {A} (r1 r2 : regex) (k : str -> option A) (s : str) :
  exec (Alt r1 r2) k s =
  match exec r1 k s with
  | Some a => Some a
  | None => exec r2 k s
  end.
Proof. reflexivity. Qed.

Lemma exec_chr {A} (p : char -> bool) (k : str -> option A) (c : char) (s : str) :
  exec (Chr p) k (c :: s) = if p c then k s else None.
Proof. reflexivity. Qed.

Lemma exec_plus_chr {A} (p : char -> bool) (k : str -> option A) (c : char) (s : str) :
  (forall s, is_Some (k s)) ->
  exec (Plus (Chr p)) k (c :: s) = if p c then k (drop_while p s) else None.
Proof.
  intros Hk. unfold Plus. rewrite exec_seq, exec_chr.
  destruct (p c); [|reflexivity]. apply exec_star_chr, Hk.
Qed.

Lemma suffix_elem (x : char) (s' s : str) : suffix s' s -> x ∈ s' -> x ∈ s.
Proof. intros [k ->] H. apply elem_of_app. right. exact H. Qed.

(** A string that starts with a match of [Lit c] then anything holds [c]. *)
Lemma exec_lit_elem {A} (c : ascii) (r : regex) (k : str -> option A) (s : str) :
  is_Some (exec (Seq (Lit c) r) k s) -> ch c ∈ s.
Proof.
  intros [a H]. unfold Lit in H. cbn [exec] in H.
  destruct s as [|c' s]; [discriminate|].
  destruct (chr_eqb (ch c) c') eqn:E; [|discriminate].
  apply N.eqb_eq in E. rewrite <- E. left.
Qed.

Lemma take_upto_length n p s : (length (drop_upto n p s) <= length s)%nat.
Proof.
  revert s. induction n as [|n IH]; intros [|c s]; simpl; try lia.
  destruct (p c); simpl; [specialize (IH s)|]; lia.
Qed.

Lemma take_drop_upto n p s :
  take (length s - length (drop_upto n p s)) s = take_upto n p s.
Proof.
  revert s. induction n as [|n IH]; intros [|c s]; simpl; try reflexivity.
  - rewrite Nat.sub_diag. reflexivity.
  - destruct (p c); simpl.
    + pose proof (take_upto_length n p s).
      replace (S (length s) - length (drop_upto n p s))%nat
        with (S (length s - length (drop_upto n p s))) by lia.
      simpl. f_equal. apply IH.
    + rewrite Nat.sub_diag. reflexivity.
Qed.

Lemma drop_while_length p s : (length (drop_while p s) <= length s)%nat.
Proof. induction s as [|c s IH]; simpl; [lia|]. destruct (p c); simpl; lia. Qed.

Section PatternFacts.
Context {U : UnicodeData}.

(** The matcher on [mention_regex] agrees with the reading [mention_at]. *)
Lemma match_mention_at s : match_mention s = mention_at s.
Proof.
  unfold match_mention, mention_at.
  unfold mention_handle, mention_tail, Lit.
  destruct s as [|c [|c1 s2]]; cbn [exec andb]; [reflexivity| |].
  - destruct (chr_eqb (ch "@") c); reflexivity.
  - destruct (chr_eqb (ch "@") c); [|reflexivity].
    destruct (isword c1); [|reflexivity]. cbn [andb length].
    set (k3 := fun s2' s3 : str =>
                 Some (take (S (length s2) - length s2') (c1 :: s2), s3)).
    assert (Hk3 : forall s2' s3, is_Some (k3 s2' s3)) by (intros; eexists; reflexivity).
    assert (Hcol : forall s2' s3,
               exec (Star (Chr is_colon)) (k3 s2') s3
               = k3 s2' (drop_while is_colon s3)).
    { intros. apply exec_star_chr. apply Hk3. }
    assert (Hsp : forall s2',
               exec (Star (Chr is_space)) (exec (Star (Chr is_colon)) (k3 s2')) s2'
               = k3 s2' (drop_while is_colon (drop_while is_space s2'))).
    { intros. rewrite exec_star_chr.
      - apply Hcol.
      - intros s3. rewrite Hcol. apply Hk3. }
    change (rep_iter (exec (Chr isword))
              (fun s2' => exec (Star (Chr is_space))
                            (exec (Star (Chr is_colon)) (k3 s2')) s2') 14 s2
            = Some (c1 :: take_upto 14 isword s2,
                    drop_while is_colon
                      (drop_while is_space (drop_upto 14 isword s2)))).
    rewrite rep_iter_chr.
    2:{ intros s2'. rewrite Hsp. apply Hk3. }
    rewrite Hsp. unfold k3. f_equal. f_equal.
    pose proof (take_upto_length 14 isword s2).
    replace (S (length s2) - length (drop_upto 14 isword s2))%nat
      with (S (length s2 - length (drop_upto 14 isword s2))) by lia.
    cbn [firstn]. f_equal. apply take_drop_upto.
Qed.

Lemma exec_rep_chr {A} (p : char -> bool) (k : str -> option A) n s :
  (forall s, is_Some (k s)) ->
  exec (Rep n (Chr p)) k s = k (drop_upto n p s).
Proof. intros Hk. apply rep_iter_chr, Hk. Qed.

(** The whole pattern [mention_regex] ends where [match_mention] ends. *)
Lemma match_mention_regex s :
  match_at mention_regex s = option_map snd (match_mention s).
Proof.
  rewrite match_mention_at.
  unfold match_at, mention_regex, mention_handle, mention_tail, mention_at, Lit.
  destruct s as [|c [|c1 s2]]; [reflexivity| |].
  - rewrite exec_seq, exec_chr. destruct (chr_eqb (ch "@") c); reflexivity.
  - rewrite exec_seq, exec_chr. destruct (chr_eqb (ch "@") c); [|reflexivity].
    rewrite !exec_seq, exec_chr. destruct (isword c1); [|reflexivity].
    assert (Htail : forall t,
               exec (Star (Chr (chr_eqb (ch " "))))
                 (exec (Star (Chr (chr_eqb (ch ":")))) Some) t
               = Some (drop_while is_colon (drop_while is_space t))).
    { intros t. rewrite exec_star_chr.
      - apply exec_star_chr. intros; eexists; reflexivity.
      - intros t'. rewrite exec_star_chr by (intros; eexists; reflexivity).
        eexists; reflexivity. }
    rewrite exec_rep_chr.
    + rewrite exec_seq. apply Htail.
    + intros t. rewrite exec_seq, Htail. eexists; reflexivity.
Qed.

(** The matcher on [multi_space_regex] agrees with [space_at]. *)
Lemma match_space_at s : match_at multi_space_regex s = space_at s.
Proof.
  unfold match_at, multi_space_regex, space_at, Lit.
  destruct s as [|c s]; [reflexivity|].
  rewrite exec_alt, !exec_plus_chr by (intros; eexists; reflexivity).
  destruct (isspace c) eqn:Hc; [reflexivity|].
  destruct (chr_eqb (ch LF) c) eqn:E; [|reflexivity].
  apply N.eqb_eq in E. subst c. discriminate Hc.
Qed.

Lemma mention_at_shorter p g r :
  mention_at p = Some (g, r) -> (length r < length p)%nat.
Proof.
  unfold mention_at. destruct p as [|c [|c1 s2]]; try discriminate.
  pose proof (take_upto_length 14 isword s2).
  pose proof (drop_while_length is_space (drop_upto 14 isword s2)).
  pose proof (drop_while_length is_colon (drop_while is_space (drop_upto 14 isword s2))).
  generalize dependent (drop_upto 14 isword s2). intros d Hd Hsp Hcol.
  generalize (take_upto 14 isword s2). intros h.
  destruct (_ && _); [|discriminate]. intros [= _ <-].
  cbn [length]. lia.
Qed.

(** Every match of a pattern holds the character the pattern needs. *)
Lemma url_match_colon t : is_Some (match_at url_regex t) -> ch ":" ∈ t.
Proof.
  intros [a H]. unfold match_at, url_regex in H.
  rewrite exec_seq in H. apply exec_suffix in H as (s1 & Hs1 & H).
  rewrite exec_seq in H. apply exec_suffix in H as (s2 & Hs2 & H).
  eapply suffix_elem; [exact Hs1|]. eapply suffix_elem; [exact Hs2|].
  rewrite exec_seq in H. unfold Word in H. cbn [list_ascii_of_string fold_right] in H.
  rewrite exec_seq in H. eapply exec_lit_elem. rewrite exec_seq. eexists. exact H.
Qed.

Lemma pic_match_dot t : is_Some (match_at pic_url_regex t) -> ch "." ∈ t.
Proof.
  intros [a H]. unfold match_at, pic_url_regex in H.
  rewrite exec_seq in H. unfold Word in H. cbn [list_ascii_of_string fold_right] in H.
  do 3 (rewrite exec_seq in H; apply exec_suffix in H as (? & ? & H);
        eapply suffix_elem; [eassumption|]).
  eapply exec_lit_elem. eexists. exact H.
Qed.

Lemma multi_dot_match_dot t : is_Some (match_at multi_dot_regex t) -> ch "." ∈ t.
Proof.
  intros [a H]. unfold match_at, multi_dot_regex, Plus in H.
  rewrite exec_seq in H. apply exec_suffix in H as (s1 & Hs1 & H).
  eapply suffix_elem; [exact Hs1|].
  rewrite !exec_seq in H. eapply exec_lit_elem. rewrite exec_seq. eexists. exact H.
Qed.

Lemma mention_match_at t : is_Some (match_mention t) -> ch "@" ∈ t.
Proof.
  rewrite match_mention_at. intros [a H]. unfold mention_at in H.
  destruct t as [|c [|c1 s2]]; try discriminate.
  destruct (chr_eqb (ch "@") c) eqn:E; [|discriminate].
  apply N.eqb_eq in E. rewrite <- E. left.
Qed.

Lemma hashtag_match_hash t : is_Some (match_at hashtag_regex t) -> ch "#" ∈ t.
Proof. unfold match_at, hashtag_regex. apply exec_lit_elem. Qed.

Lemma is_Some_option_map {X Y} (f : X -> Y) (o : option X) :
  is_Some (option_map f o) -> is_Some o.
Proof. destruct o; intros [y H]; [eexists; reflexivity | discriminate]. Qed.

Lemma sub_const_absent r repl (x : char) :
  (forall t, is_Some (match_at r t) -> x ∈ t) ->
  forall s, x ∉ s -> sub_const r repl s = s.
Proof.
  intros Hr s Hx. unfold sub_const. apply (sub_absent _ x); [|exact Hx].
  intros t Ht. apply Hr. eapply is_Some_option_map. exact Ht.
Qed.

Lemma url_sub_absent s : ch ":" ∉ s -> url_sub s = s.
Proof. apply sub_const_absent, url_match_colon. Qed.

Lemma pic_url_sub_absent s : ch "." ∉ s -> pic_url_sub s = s.
Proof. apply sub_const_absent, pic_match_dot. Qed.

Lemma multi_dot_sub_absent s : ch "." ∉ s -> multi_dot_sub s = s.
Proof. apply sub_const_absent, multi_dot_match_dot. Qed.

Lemma mention_sub_absent s : ch "@" ∉ s -> mention_sub s = s.
Proof.
  intros Hx. unfold mention_sub. apply (sub_absent _ (ch "@")); [|exact Hx].
  intros t Ht. apply mention_match_at. eapply is_Some_option_map. exact Ht.
Qed.

Lemma hashtag_sub_absent s : ch "#" ∉ s -> hashtag_sub s = s.
Proof. apply sub_const_absent, hashtag_match_hash. Qed.
End PatternFacts.

(* ===================================================================== *)
(** * The patterns on sample strings *)
(* ===================================================================== *)

Section Samples.
Context {U : UnicodeData}.

Example url_stops_at_hash :
  url_sub (py "a http://x.y#frag b") = py "a #frag b".
Proof. vm_compute. reflexivity. Qed.

Example url_needs_two_slashes :
  url_sub (py "https:/ /x http://") = py "https:/ /x http://".
Proof. vm_compute. reflexivity. Qed.

Example pic_url_takes_word_characters :
  pic_url_sub (py "see pic.twitter.com/aB_9-x pic.twitter.com/ z")
  = py "see -x pic.twitter.com/ z".
Proof. vm_compute. reflexivity. Qed.

Example multi_dot_collapses :
  multi_dot_sub (py "a . . .  b...") = py "a . b . ".
Proof. vm_compute. reflexivity. Qed.

Example multi_dot_stops_at_tab :
  multi_dot_sub (py "." ++ [9%N] ++ py ".") = py " . " ++ [9%N] ++ py " . ".
Proof. vm_compute. reflexivity. Qed.

Example mention_takes_fifteen :
  mention_sub (py "@abcdefghijklmnopqrstuvwxyz x") = py "abcdefghijklmnopqrstuvwxyz x".
Proof. vm_compute. reflexivity. Qed.

Example mention_needs_a_handle :
  mention_sub (py "a@b.c @ x @_: :y") = py "ab.c @ x   :y".
Proof. vm_compute. reflexivity. Qed.

Example hashtag_needs_a_letter :
  hashtag_sub (py "#123abc_9 #123 #_a ##a #a#b # a") = py "  #123   #     # a".
Proof. vm_compute. reflexivity. Qed.

Example multi_space_collapses :
  multi_space_sub (py "a " ++ [9%N] ++ newline ++ py " b" ++ [28%N; 31%N] ++ py "c  ")
  = py "a b c ".
Proof. vm_compute. reflexivity. Qed.

Example split_keeps_empty_pieces :
  split (ch " ") (py "a  b ") = [py "a"; []; py "b"; []] /\ split (ch " ") [] = [[]].
Proof. split; vm_compute; reflexivity. Qed.

Example normalizer_sample :
  clean_line_mod (py "RT @user_99: ok...so #tag1 #123 x pic.twitter.com/abc9 y")
  = py "user ok . so #123 x y".
Proof. vm_compute. reflexivity. Qed.
End Samples.

(* ===================================================================== *)
(** * Runs of one character class *)
(* ===================================================================== *)

Section Runs.
Implicit Types (p : char -> bool) (s t : str).

Lemma drop_while_head p s : starts_with p (drop_while p s) = false.
Proof.
  induction s as [|c s IH]; [reflexivity|]. simpl.
  destruct (p c) eqn:E; [exact IH | simpl; exact E].
Qed.

Lemma drop_while_none p s : starts_with p s = false -> drop_while p s = s.
Proof. destruct s as [|c s]; simpl; [reflexivity|]. intros ->. reflexivity. Qed.

Lemma drop_while_app p s t :
  forallb p s = true -> starts_with p t = false -> drop_while p (s ++ t) = t.
Proof.
  intros Hs Ht. induction s as [|c s IH]; simpl.
  - apply drop_while_none, Ht.
  - simpl in Hs. apply andb_true_iff in Hs as [-> Hs]. apply IH, Hs.
Qed.

(** A character outside the class stops the run where it stands. *)
Lemma drop_while_stop p s (x : char) t :
  p x = false -> drop_while p (s ++ x :: t) = drop_while p s ++ x :: t.
Proof.
  intros Hx. induction s as [|c s IH]; simpl; [rewrite Hx; reflexivity|].
  destruct (p c); [exact IH | reflexivity].
Qed.

Lemma take_upto_stop n p s (x : char) t :
  p x = false -> take_upto n p (s ++ x :: t) = take_upto n p s.
Proof.
  intros Hx. revert s. induction n as [|n IH]; intros [|c s]; simpl;
    try reflexivity.
  - rewrite Hx. reflexivity.
  - destruct (p c); [f_equal; apply IH | reflexivity].
Qed.

Lemma drop_upto_stop n p s (x : char) t :
  p x = false -> drop_upto n p (s ++ x :: t) = drop_upto n p s ++ x :: t.
Proof.
  intros Hx. revert s. induction n as [|n IH]; intros [|c s]; simpl;
    try reflexivity.
  - rewrite Hx. reflexivity.
  - destruct (p c); [apply IH | reflexivity].
Qed.

Lemma upto_app n p s t :
  forallb p s = true -> (length s <= n)%nat ->
  length s = n \/ starts_with p t = false ->
  take_upto n p (s ++ t) = s /\ drop_upto n p (s ++ t) = t.
Proof.
  revert s. induction n as [|n IH]; intros s Hs Hlen Hend.
  - destruct s; [|simpl in Hlen; lia]. destruct t; split; reflexivity.
  - destruct s as [|c s].
    + destruct Hend as [Hend|Hend]; [discriminate Hend|].
      destruct t as [|c t]; [split; reflexivity|].
      simpl in Hend. simpl. rewrite Hend. split; reflexivity.
    + simpl in Hs, Hlen. apply andb_true_iff in Hs as [Hc Hs].
      simpl. rewrite Hc.
      destruct (IH s Hs) as [E1 E2]; [lia | destruct Hend; [left; simpl in *; lia | right; assumption] |].
      rewrite E1, E2. split; reflexivity.
Qed.
End Runs.

(* ===================================================================== *)
(** * The normalizer *)
(* ===================================================================== *)

Section Normalizer.
Context {U : UnicodeData}.

Lemma isword_at : isword (ch "@") = false.
Proof. reflexivity. Qed.

Lemma isspace_space : isspace (ch " ") = true.
Proof. reflexivity. Qed.

(** ** The last step *)

Lemma multi_space_sub_cons c s :
  multi_space_sub (c :: s) =
  if isspace c then ch " " :: multi_space_sub (drop_while isspace s)
  else c :: multi_space_sub s.
Proof.
  unfold multi_space_sub, sub_const. rewrite sub_cons, match_space_at.
  unfold space_at. destruct (isspace c); [|reflexivity].
  cbn [option_map]. pose proof (drop_while_length isspace s) as Hlen.
  rewrite (proj2 (Nat.ltb_lt _ _)) by (cbn [length]; lia). reflexivity.
Qed.

Lemma multi_space_sub_head s :
  starts_with isspace s = false ->
  starts_with isspace (multi_space_sub s) = false.
Proof.
  destruct s as [|c s]; [reflexivity|]. cbn [starts_with]. intros Hc.
  rewrite multi_space_sub_cons, Hc. exact Hc.
Qed.

(** Collapsing blanks twice is collapsing them once. *)
Lemma multi_space_sub_idempotent s :
  multi_space_sub (multi_space_sub s) = multi_space_sub s.
Proof.
  remember (length s) as n eqn:Hn. revert s Hn.
  induction n as [n IH] using lt_wf_ind. intros s ->.
  destruct s as [|c s]; [reflexivity|].
  rewrite multi_space_sub_cons. destruct (isspace c) eqn:Hc.
  - rewrite multi_space_sub_cons, isspace_space.
    rewrite (drop_while_none isspace (multi_space_sub _)).
    + f_equal. eapply IH; [|reflexivity].
      pose proof (drop_while_length isspace s). cbn [length]. lia.
    + apply multi_space_sub_head, drop_while_head.
  - rewrite multi_space_sub_cons, Hc. f_equal.
    eapply IH; [|reflexivity]. cbn [length]. lia.
Qed.

(** ** The mention step *)

Lemma mention_sub_at s :
  mention_sub s =
  sub (fun s => option_map (fun gr => (clean_mention (fst gr), snd gr))
                  (mention_at s)) s.
Proof.
  unfold mention_sub. apply sub_ext. intros t.
  rewrite match_mention_at. reflexivity.
Qed.

(** A mention match cannot run over a later "@". *)
Lemma mention_at_stop p t :
  p <> [] ->
  mention_at (p ++ ch "@" :: t) =
  option_map (fun gr => (fst gr, snd gr ++ ch "@" :: t)) (mention_at p).
Proof.
  intros Hp. destruct p as [|c [|c1 s2]]; [congruence| |].
  - cbn [app mention_at]. rewrite isword_at, andb_false_r. reflexivity.
  - change ((c :: c1 :: s2) ++ ch "@" :: t) with (c :: c1 :: (s2 ++ ch "@" :: t)).
    cbn [mention_at].
    destruct (chr_eqb (ch "@") c && isword c1); [|reflexivity].
    rewrite take_upto_stop, drop_upto_stop by apply isword_at.
    rewrite !drop_while_stop by reflexivity. reflexivity.
Qed.

(** The scan of the mention step restarts at every "@". *)
Lemma mention_sub_split pre t :
  mention_sub (pre ++ ch "@" :: t) = mention_sub pre ++ mention_sub (ch "@" :: t).
Proof.
  rewrite !mention_sub_at. apply sub_app_boundary.
  - intros p Hp. rewrite (mention_at_stop p t Hp).
    destruct (mention_at p) as [[g r]|]; reflexivity.
  - intros p repl rest H.
    destruct (mention_at p) as [[g r]|] eqn:E; [|discriminate].
    injection H as _ <-. eapply mention_at_shorter, E.
Qed.

(** What the pattern matches on a marker. *)
Lemma mention_at_marker h sp col rest :
  is_marker h sp col rest = true ->
  mention_at (ch "@" :: h ++ sp ++ col ++ rest) = Some (h, rest).
Proof.
  unfold is_marker. rewrite !andb_true_iff, !negb_true_iff.
  intros [[[[[[[Hne Hw] Hlen] Hmax] Hsp] Hcol] Hsp'] Hcol'].
  destruct h as [|c1 h]; [discriminate Hne|].
  cbn [forallb] in Hw. apply andb_true_iff in Hw as [Hc1 Hw].
  apply Nat.leb_le in Hlen. cbn [length] in Hlen, Hmax.
  change (ch "@" :: (c1 :: h) ++ sp ++ col ++ rest)
    with (ch "@" :: c1 :: (h ++ sp ++ col ++ rest)).
  cbn [mention_at]. rewrite Hc1.
  change (chr_eqb (ch "@") (ch "@")) with true. cbn [andb].
  destruct (upto_app 14 isword h (sp ++ col ++ rest) Hw) as [E1 E2]; [lia | |].
  { apply orb_true_iff in Hmax as [Hmax|Hmax].
    - left. apply Nat.eqb_eq in Hmax. lia.
    - right. apply negb_true_iff in Hmax. exact Hmax. }
  rewrite E1, E2, (drop_while_app is_space sp) by assumption.
  rewrite (drop_while_app is_colon col) by assumption. reflexivity.
Qed.

Lemma mention_sub_marker h sp col rest :
  is_marker h sp col rest = true ->
  mention_sub (ch "@" :: h ++ sp ++ col ++ rest)
  = clean_mention h ++ mention_sub rest.
Proof.
  intros Hm. rewrite !mention_sub_at, sub_cons, (mention_at_marker _ _ _ _ Hm).
  cbn [option_map fst snd].
  rewrite (proj2 (Nat.ltb_lt _ _)); [reflexivity|].
  cbn [length]. rewrite !length_app. lia.
Qed.
End Normalizer.

(* ===================================================================== *)
(** * The hashtag step *)
(* ===================================================================== *)

Lemma star_chr_nil {A} (p : char -> bool) (k : str -> option A) :
  exec (Star (Chr p)) k [] = k [].
Proof. reflexivity. Qed.

(** The greedy run gives back one character at a time. *)
Lemma star_chr_cons {A} (p : char -> bool) (k : str -> option A) (c : char) (s : str) :
  exec (Star (Chr p)) k (c :: s) =
  if p c
  then match exec (Star (Chr p)) k s with
       | Some a => Some a
       | None => k (c :: s)
       end
  else k (c :: s).
Proof.
  cbn [exec length star_iter]. destruct (p c); [|reflexivity].
  rewrite (proj2 (Nat.ltb_lt (length s) (S (length s)))) by lia. reflexivity.
Qed.

Section Hashtags.
Context {U : UnicodeData}.

Lemma letter_is_word c : ascii_letter c = true -> isword c = true.
Proof.
  intros H. unfold isword. rewrite H.
  assert (is_ascii c = true) as ->; [|reflexivity].
  unfold ascii_letter, in_range in H. unfold is_ascii.
  change (ch "a") with 97%N in H. change (ch "z") with 122%N in H.
  change (ch "A") with 65%N in H. change (ch "Z") with 90%N in H.
  apply N.ltb_lt. apply orb_true_iff in H as [H|H];
    apply andb_true_iff in H as [_ H]; apply N.leb_le in H; lia.
Qed.

Lemma isword_hash : isword (ch "#") = false.
Proof. reflexivity. Qed.

Lemma isword_space : isword (ch " ") = false.
Proof. reflexivity. Qed.

Lemma drop_while_letters_word s :
  drop_while isword (drop_while ascii_letter s) = drop_while isword s.
Proof.
  induction s as [|c s IH]; [reflexivity|]. simpl.
  destruct (ascii_letter c) eqn:E.
  - rewrite (letter_is_word c E). exact IH.
  - reflexivity.
Qed.

(** The end of the pattern after the first run: one ASCII letter at
    least, then word characters. *)
Lemma hashtag_end s :
  exec (Plus (Chr ascii_letter)) (exec (Star (Chr isword)) Some) s
  = if starts_with ascii_letter s then Some (drop_while isword s) else None.
Proof.
  destruct s as [|c s]; [reflexivity|].
  rewrite exec_plus_chr.
  - cbn [starts_with]. destruct (ascii_letter c) eqn:E; [|reflexivity].
    rewrite exec_star_chr by (intros; eexists; reflexivity).
    rewrite drop_while_letters_word. cbn [drop_while].
    rewrite (letter_is_word c E). reflexivity.
  - intros t. rewrite exec_star_chr by (intros; eexists; reflexivity).
    eexists; reflexivity.
Qed.

(** The first run gives characters back until the rest starts with an
    ASCII letter: the match succeeds when the run holds one, and then it
    covers the whole run. *)
Lemma hashtag_run s :
  exec (Star (Chr isword))
    (exec (Plus (Chr ascii_letter)) (exec (Star (Chr isword)) Some)) s
  = if existsb ascii_letter (take_while isword s)
    then Some (drop_while isword s) else None.
Proof.
  induction s as [|c s IH].
  - rewrite star_chr_nil, hashtag_end. reflexivity.
  - rewrite star_chr_cons, IH, hashtag_end. cbn [take_while drop_while starts_with].
    destruct (isword c) eqn:Hw.
    + cbn [existsb]. destruct (existsb ascii_letter (take_while isword s)).
      * rewrite orb_true_r. reflexivity.
      * rewrite orb_false_r. reflexivity.
    + cbn [existsb]. destruct (ascii_letter c) eqn:E; [|reflexivity].
      rewrite (letter_is_word c E) in Hw. discriminate Hw.
Qed.

(** The matcher on [hashtag_regex] agrees with the reading [hashtag_at]. *)
Lemma match_hashtag_at s : match_at hashtag_regex s = hashtag_at s.
Proof.
  unfold match_at, hashtag_regex, hashtag_at, Lit.
  destruct s as [|c s]; [reflexivity|].
  rewrite exec_seq, exec_chr, exec_seq, hashtag_run.
  destruct (chr_eqb (ch "#") c); reflexivity.
Qed.

Lemma hashtag_sub_cons c s :
  hashtag_sub (c :: s) =
  if chr_eqb (ch "#") c && existsb ascii_letter (take_while isword s)
  then ch " " :: hashtag_sub (drop_while isword s)
  else c :: hashtag_sub s.
Proof.
  unfold hashtag_sub, sub_const. rewrite sub_cons, match_hashtag_at.
  unfold hashtag_at. destruct (_ && _); [|reflexivity].
  cbn [option_map]. pose proof (drop_while_length isword s).
  rewrite (proj2 (Nat.ltb_lt _ _)) by (cbn [length]; lia). reflexivity.
Qed.

(** A string in which no hashtag starts is left as it is. *)
Lemma hashtag_sub_tagless s : tagless s = true -> hashtag_sub s = s.
Proof.
  induction s as [|c s IH]; [reflexivity|].
  cbn [tagless]. intros H. apply andb_true_iff in H as [Hc Hs].
  rewrite hashtag_sub_cons. apply negb_true_iff in Hc. rewrite Hc.
  f_equal. apply IH, Hs.
Qed.

Lemma tagless_drop_while p s : tagless s = true -> tagless (drop_while p s) = true.
Proof.
  induction s as [|c s IH]; [reflexivity|]. intros H. cbn [drop_while].
  destruct (p c); [|exact H].
  cbn [tagless] in H. apply andb_true_iff in H as [_ H]. apply IH, H.
Qed.

(** A run of word characters without ASCII letter is still one after the
    hashtag step, and after the whitespace step. *)
Lemma hashtag_sub_run s :
  existsb ascii_letter (take_while isword s) = false ->
  existsb ascii_letter (take_while isword (hashtag_sub s)) = false.
Proof.
  induction s as [|c s IH]; [reflexivity|]. rewrite hashtag_sub_cons.
  destruct (chr_eqb (ch "#") c && _) eqn:Hm.
  - intros _. cbn [take_while]. rewrite isword_space. reflexivity.
  - cbn [take_while]. destruct (isword c); [|reflexivity].
    cbn [existsb]. intros H. apply orb_false_iff in H as [-> H]. apply IH, H.
Qed.

Lemma multi_space_sub_run s :
  existsb ascii_letter (take_while isword s) = false ->
  existsb ascii_letter (take_while isword (multi_space_sub s)) = false.
Proof.
  induction s as [|c s IH]; [reflexivity|]. rewrite multi_space_sub_cons.
  destruct (isspace c).
  - intros _. cbn [take_while]. rewrite isword_space. reflexivity.
  - cbn [take_while]. destruct (isword c); [|reflexivity].
    cbn [existsb]. intros H. apply orb_false_iff in H as [-> H]. apply IH, H.
Qed.

(** After the hashtag step no hashtag is left. *)
Lemma hashtag_sub_is_tagless s : tagless (hashtag_sub s) = true.
Proof.
  remember (length s) as n eqn:Hn. revert s Hn.
  induction n as [n IH] using lt_wf_ind. intros s ->.
  destruct s as [|c s]; [reflexivity|]. rewrite hashtag_sub_cons.
  destruct (chr_eqb (ch "#") c && _) eqn:Hm.
  - cbn [tagless]. change (chr_eqb (ch "#") (ch " ")) with false. cbn [andb negb].
    eapply IH; [|reflexivity]. pose proof (drop_while_length isword s).
    cbn [length]. lia.
  - cbn [tagless]. rewrite (IH (length s)); [|cbn [length]; lia | reflexivity].
    rewrite andb_true_r. apply negb_true_iff.
    destruct (chr_eqb (ch "#") c); [|reflexivity]. cbn [andb] in *.
    apply hashtag_sub_run, Hm.
Qed.

(** The whitespace step brings no hashtag in. *)
Lemma multi_space_sub_tagless s :
  tagless s = true -> tagless (multi_space_sub s) = true.
Proof.
  remember (length s) as n eqn:Hn. revert s Hn.
  induction n as [n IH] using lt_wf_ind. intros s -> H.
  destruct s as [|c s]; [reflexivity|]. rewrite multi_space_sub_cons.
  pose proof H as H'. cbn [tagless] in H'. apply andb_true_iff in H' as [Hc Hs].
  destruct (isspace c).
  - cbn [tagless]. change (chr_eqb (ch "#") (ch " ")) with false. cbn [andb negb].
    eapply IH; [| reflexivity | apply tagless_drop_while, Hs].
    pose proof (drop_while_length isspace s). cbn [length]. lia.
  - cbn [tagless]. rewrite (IH (length s)); [|cbn [length]; lia | reflexivity | exact Hs].
    rewrite andb_true_r. apply negb_true_iff. apply negb_true_iff in Hc.
    destruct (chr_eqb (ch "#") c); [|reflexivity]. cbn [andb] in *.
    apply multi_space_sub_run, Hc.
Qed.
End Hashtags.

Section NormalizerClaims.
Context {U : UnicodeData}.

(** C10: the space belongs to the character class of the URL pattern, and
    the removal of a link takes the words after it with it: here a link,
    a space, and words of letters, digits, ".", "-", "_", "/" and
    parentheses are removed as one match. *)
Theorem url_removal_takes_following_words :
  url_class2 (ch " ") = true
  /\ match_at url_regex (py "https://t.co/abc") = Some []
  /\ match_at url_regex
       (py "https://t.co/abc" ++ py " " ++ py "see my_site (v1.0) and-more/here")
     = Some []
  /\ url_sub (py "look https://t.co/abc" ++ py " "
              ++ py "see my_site (v1.0) and-more/here") = py "look "
  /\ clean_line_mod (py "look https://t.co/abc" ++ py " "
                     ++ py "see my_site (v1.0) and-more/here") = py "look ".
Proof. repeat split; vm_compute; reflexivity. Qed.
End NormalizerClaims.

(* ===================================================================== *)
(** * The budgeted writer *)
(* ===================================================================== *)

Section WriterFacts.
Context {U : UnicodeData} {mt : MosesTokenizer}.
Implicit Types (num_tokens : option Z) (st : pass) (texts : list str).

(** The two outcomes of the gate of lines 103-105. *)
Lemma body_rejected num_tokens num_tokens_tweet_min idx text st :
  num_tokens_tweet_of text < num_tokens_tweet_min ->
  body num_tokens num_tokens_tweet_min idx text st
  = (Continue, {| f_out := f_out st; total_num_tokens := total_num_tokens st;
                  i := idx; printed := printed st |}).
Proof.
  intros H. unfold body. cbn [f_out total_num_tokens i printed].
  rewrite (proj2 (Z.ltb_lt _ _) H). reflexivity.
Qed.

Lemma body_accepted num_tokens num_tokens_tweet_min idx text st :
  num_tokens_tweet_min <= num_tokens_tweet_of text ->
  exists c st',
    body num_tokens num_tokens_tweet_min idx text st = (c, st')
    /\ f_out st' = f_out st ++ line_of text
    /\ total_num_tokens st' = total_num_tokens st + (num_tokens_tweet_of text + 1)
    /\ i st' = idx
    /\ (c = Break <-> over_budget num_tokens (total_num_tokens st') = true).
Proof.
  intros H. unfold body. cbn [f_out total_num_tokens i printed].
  rewrite (proj2 (Z.ltb_ge _ _) H).
  destruct (over_budget num_tokens _) eqn:Hover.
  - eexists _, _. split; [reflexivity|]. cbn [f_out total_num_tokens i].
    repeat split; auto.
  - destruct (_ && _); eexists _, _; (split; [reflexivity|]);
      cbn [f_out total_num_tokens i]; rewrite Hover;
      repeat split; auto; discriminate.
Qed.



(** Without a budget the loop never breaks. *)
Lemma loop_unbounded num_tokens_tweet_min texts :
  forall idx st, exists st',
    loop None num_tokens_tweet_min idx texts st = (st', [], false).
Proof.
  induction texts as [|text texts IH]; intros idx st; simpl.
  - eexists. reflexivity.
  - destruct (body None _ idx text st) as [[] st1] eqn:Hbody.
    + apply IH.
    + exfalso.
      destruct (Z_lt_ge_dec (num_tokens_tweet_of text) num_tokens_tweet_min) as [Hlt|Hge].
      * rewrite body_rejected in Hbody by exact Hlt. discriminate Hbody.
      * destruct (body_accepted None num_tokens_tweet_min idx text st) as (c & st2 & E & _ & _ & _ & Hc);
          [lia|].
        rewrite Hbody in E. injection E as <- <-.
        destruct Hc as [Hc _]. specialize (Hc eq_refl). discriminate Hc.
Qed.

(** The texts left are the end of the texts given: the generator only
    moves forward. *)
Lemma loop_forward num_tokens num_tokens_tweet_min texts :
  forall idx st st' rest b,
    loop num_tokens num_tokens_tweet_min idx texts st = (st', rest, b) ->
    suffix rest texts.
Proof.
  induction texts as [|text texts IH]; intros idx st st' rest b H; simpl in H.
  - injection H as _ <- _. reflexivity.
  - apply suffix_cons_r. destruct (body _ _ idx text st) as [[] st1].
    + eapply IH, H.
    + injection H as _ <- _. reflexivity.
Qed.
End WriterFacts.

Section WriterClaims.
Context {U : UnicodeData} {mt : MosesTokenizer}.


(** C2: an accepted record adds its accounted count plus one to the
    running total, that is the number of tokens of the written line plus
    two, and its line is what is written. *)
Theorem accepted_adds_count_plus_one num_tokens num_tokens_tweet_min idx text st :
  num_tokens_tweet_min <= num_tokens_tweet_of text ->
  total_num_tokens (snd (body num_tokens num_tokens_tweet_min idx text st))
  = total_num_tokens st + (num_tokens_tweet_of text + 1)
  /\ total_num_tokens (snd (body num_tokens num_tokens_tweet_min idx text st))
     = total_num_tokens st + (Z.of_nat (length (tokens_of text)) + 2)
  /\ f_out (snd (body num_tokens num_tokens_tweet_min idx text st))
     = f_out st ++ tokenized_of text ++ newline.
Proof.
  intros H.
  destruct (body_accepted num_tokens num_tokens_tweet_min idx text st H)
    as (c & st' & -> & Hout & Htot & _).
  cbn [snd]. rewrite Htot, Hout. unfold num_tokens_tweet_of, line_of.
  repeat split; lia.
Qed.

(** C4: the accounted value of a record is the number of its non-empty
    tokens plus one; a record whose value is below the threshold is
    skipped: nothing is written, the running total stays, and the loop
    goes on with the next record. *)
Theorem gate_rejects_short num_tokens num_tokens_tweet_min idx text rest st :
  num_tokens_tweet_of text < num_tokens_tweet_min ->
  num_tokens_tweet_of text
  = Z.of_nat (length (List.filter nonempty
                        (split (ch " ") (tokenize (strip text))))) + 1
  /\ fst (body num_tokens num_tokens_tweet_min idx text st) = Continue
  /\ f_out (snd (body num_tokens num_tokens_tweet_min idx text st)) = f_out st
  /\ total_num_tokens (snd (body num_tokens num_tokens_tweet_min idx text st))
     = total_num_tokens st
  /\ loop num_tokens num_tokens_tweet_min idx (text :: rest) st
     = loop num_tokens num_tokens_tweet_min (idx + 1) rest
         {| f_out := f_out st; total_num_tokens := total_num_tokens st;
            i := idx; printed := printed st |}.
Proof.
  intros H. cbn [loop]. rewrite (body_rejected _ _ _ _ _ H). cbn [fst snd f_out total_num_tokens].
  split; [unfold num_tokens_tweet_of, tokens_of, tokenized_of; lia | repeat split].
Qed.

(** C3, amended: with accounted lengths 12, 5, 20, 8 and 15, threshold 10
    and budget 30, the pass rejects the record of length 5, writes the
    records of lengths 12 and 20 in this order, reaches the total 34 with
    the second of them and stops there, after two records written; the
    records of lengths 8 and 15 stay in the generator. *)
Theorem scenario_stops_after_two (t1 t2 t3 t4 t5 : str) (st : pass) :
  List.map num_tokens_tweet_of [t1; t2; t3; t4; t5] = [12; 5; 20; 8; 15] ->
  total_num_tokens st = 0 ->
  loop (Some 30) 10 0 [t1; t2; t3; t4; t5] st
  = ({| f_out := (f_out st ++ line_of t1) ++ line_of t3;
        total_num_tokens := 34;
        i := 2;
        printed := printed st |}, [t4; t5], true).
Proof.
  intros Hlen Htot. injection Hlen as H1 H2 H3 _ _.
  cbn [loop]. unfold body. cbn [f_out total_num_tokens i printed].
  rewrite H1, H2, H3, Htot. reflexivity.
Qed.

(** The count a pass without budget reports is the index of the last
    text drawn, whether that text was written or not. *)
Lemma loop_unbounded_index num_tokens_tweet_min texts :
  forall idx st, texts <> [] ->
    i (fst (fst (loop None num_tokens_tweet_min idx texts st)))
    = idx + Z.of_nat (length texts) - 1.
Proof.
  induction texts as [|text texts IH]; intros idx st Hne; [congruence|].
  cbn [loop].
  destruct (Z_lt_ge_dec (num_tokens_tweet_of text) num_tokens_tweet_min) as [Hlt|Hge].
  - rewrite body_rejected by exact Hlt.
    destruct texts as [|text' texts]; [cbn; lia|].
    rewrite IH by discriminate. cbn [length]. lia.
  - destruct (body_accepted None num_tokens_tweet_min idx text st) as (c & st2 & E & _ & _ & Hi & Hc);
      [lia|].
    rewrite E. destruct c.
    + destruct texts as [|text' texts]; [cbn; lia|].
      rewrite IH by discriminate. cbn [length]. lia.
    + destruct Hc as [Hc _]. specialize (Hc eq_refl). discriminate Hc.
Qed.
End WriterClaims.


(** Witness of [accepted_adds_count_plus_one]: a text of 11 words. *)
Lemma accepted_adds_count_plus_one_witness :
  total_num_tokens (snd (@body ascii_only verbatim None 10 0 (words 11) fresh))
  = total_num_tokens fresh + (@num_tokens_tweet_of ascii_only verbatim (words 11) + 1)
  /\ total_num_tokens (snd (@body ascii_only verbatim None 10 0 (words 11) fresh))
     = total_num_tokens fresh
       + (Z.of_nat (length (@tokens_of ascii_only verbatim (words 11))) + 2)
  /\ f_out (snd (@body ascii_only verbatim None 10 0 (words 11) fresh))
     = f_out fresh ++ @tokenized_of ascii_only verbatim (words 11) ++ newline.
Proof.
  apply (@accepted_adds_count_plus_one ascii_only verbatim None 10 0 (words 11) fresh).
  vm_compute. discriminate.
Defined.

(** Witness of [gate_rejects_short]: a text of 4 words. *)
Lemma gate_rejects_short_witness :
  @num_tokens_tweet_of ascii_only verbatim (words 4)
  = Z.of_nat (length (List.filter nonempty
                        (split (ch " ") (@tokenize verbatim (@strip ascii_only (words 4)))))) + 1
  /\ fst (@body ascii_only verbatim None 10 0 (words 4) fresh) = Continue
  /\ f_out (snd (@body ascii_only verbatim None 10 0 (words 4) fresh)) = f_out fresh
  /\ total_num_tokens (snd (@body ascii_only verbatim None 10 0 (words 4) fresh))
     = total_num_tokens fresh
  /\ @loop ascii_only verbatim None 10 0 [words 4; words 11] fresh
     = @loop ascii_only verbatim None 10 (0 + 1) [words 11]
         {| f_out := f_out fresh; total_num_tokens := total_num_tokens fresh;
            i := 0; printed := printed fresh |}.
Proof.
  apply (@gate_rejects_short ascii_only verbatim None 10 0 (words 4) [words 11] fresh).
  vm_compute. reflexivity.
Defined.

(** Witness of [scenario_stops_after_two]. *)
Lemma scenario_stops_after_two_witness :
  @loop ascii_only verbatim (Some 30) 10 0 scenario_texts fresh
  = ({| f_out := (f_out fresh ++ @line_of ascii_only verbatim (words 11))
                 ++ @line_of ascii_only verbatim (words 19);
        total_num_tokens := 34;
        i := 2;
        printed := printed fresh |}, [words 7; words 14], true).
Proof.
  apply (@scenario_stops_after_two ascii_only verbatim
           (words 11) (words 4) (words 19) (words 7) (words 14) fresh).
  - vm_compute. reflexivity.
  - reflexivity.
Defined.

(** C3 fails as stated: the five texts have the accounted lengths of the
    scenario, and the pass writes two lines, not three, with the total 34,
    not 47; the text of length 15 is never drawn. *)
Lemma scenario_counterexample :
  List.map (@num_tokens_tweet_of ascii_only verbatim) scenario_texts = [12; 5; 20; 8; 15]
  /\ (let '(st, rest, stopped) :=
        @loop ascii_only verbatim (Some 30) 10 0 scenario_texts fresh in
      f_out st = @line_of ascii_only verbatim (words 11)
                 ++ @line_of ascii_only verbatim (words 19)
      /\ f_out st <> @line_of ascii_only verbatim (words 11)
                     ++ @line_of ascii_only verbatim (words 19)
                     ++ @line_of ascii_only verbatim (words 14)
      /\ total_num_tokens st = 34
      /\ total_num_tokens st <> 47
      /\ rest = [words 7; words 14]
      /\ stopped = true).
Proof.
  split; [vm_compute; reflexivity|].
  vm_compute. repeat split; discriminate.
Qed.

(** C9, at its failing inputs: a pass that writes one record reports no
    document, and a pass that writes one record and skips two reports two.
    The token count of the summary is the running total. *)
Theorem summary_reports_last_index :
  (let w := @write_tweettext ascii_only verbatim out_tokens None W 10
              (world_of [words 11]) in
   files w !! out_tokens = Some (@line_of ascii_only verbatim (words 11))
   /\ stdout w = [Writing out_tokens; Summary out_tokens 0 13])
  /\ (let w := @write_tweettext ascii_only verbatim out_tokens None W 10
                 (world_of [words 11; words 4; words 4]) in
      files w !! out_tokens = Some (@line_of ascii_only verbatim (words 11))
      /\ stdout w = [Writing out_tokens; Summary out_tokens 2 13]).
Proof.
  split; unfold write_tweettext, world_of; cbn [text_iter];
    match goal with
    | |- context [@loop ?u ?t ?a ?b ?c ?d ?e] =>
        let r := eval vm_compute in (@loop u t a b c d e) in
        change (@loop u t a b c d e) with r
    end;
    cbn [finish files stdout f_out i total_num_tokens printed];
    (split; [rewrite lookup_insert_eq; vm_compute; reflexivity | reflexivity]).
Qed.

(* ===================================================================== *)
(** * Text extraction *)
(* ===================================================================== *)

Lemma field_obj (k : str) (v : json) :
  is_Some (field k v) -> exists fields x, v = JObj fields /\ fields !! k = Some x.
Proof.
  destruct v as [| | | | |fields]; intros [x H]; try discriminate H.
  exists fields, x. split; [reflexivity | exact H].
Qed.

Lemma has_key (fields : gmap str json) (k : str) (x : json) :
  fields !! k = Some x -> bool_decide (is_Some (fields !! k)) = true.
Proof. intros H. apply bool_decide_eq_true_2. rewrite H. eexists; reflexivity. Qed.

Lemma has_no_key (fields : gmap str json) (k : str) :
  fields !! k = None -> bool_decide (is_Some (fields !! k)) = false.
Proof. intros H. apply bool_decide_eq_false_2. rewrite H. intros [x Hx]. discriminate Hx. Qed.

(** The text of one record, from its own fields: the full text of its
    extended part when it has one, its short text otherwise. *)
Lemma record_shape_text (v : json) :
  record_shape v ->
  exists fields text,
    v = JObj fields /\ fields !! k_text = Some text /\
    match fields !! k_extended_tweet with
    | Some et => exists efields full, et = JObj efields /\ efields !! k_full_text = Some full
    | None => True
    end.
Proof.
  intros [Htext Hext]. apply field_obj in Htext as (fields & text & -> & Htext).
  exists fields, text. split; [reflexivity|]. split; [exact Htext|].
  cbn [field] in Hext. destruct (fields !! k_extended_tweet) as [et|]; [|exact I].
  destruct Hext as [full Hfull]; [eexists; reflexivity|].
  apply field_obj. exists full. exact Hfull.
Qed.

(** One step of the evaluation of [get_text_from_tweet] on known fields. *)
Ltac known_key :=
  first [ rewrite bool_decide_eq_true_2 by (eexists; reflexivity)
        | rewrite bool_decide_eq_false_2 by (intros [? ?]; discriminate) ].

Ltac run_lookup :=
  repeat first
    [ progress cbn [mbind res_bind option_bind py_in py_in_keys py_getitem field
                    first_present fold_right]
    | known_key
    | match goal with
      | H : ?m !! ?k = _ |- context [?m !! ?k] => rewrite H
      end ].

Ltac known_key_in H :=
  first [ rewrite bool_decide_eq_true_2 in H by (eexists; reflexivity)
        | rewrite bool_decide_eq_false_2 in H by (intros [? ?]; discriminate) ].

Ltac run_lookup_in H :=
  repeat first
    [ progress cbn [mbind res_bind option_bind py_in py_in_keys py_getitem field] in H
    | known_key_in H
    | match type of H with
      | context [?m !! ?k] =>
          match goal with E : m !! k = _ |- _ => rewrite E in H end
      end ].

(** X1: whatever the record, a text that [get_text_from_tweet] returns is
    the value of one of the four sources. *)
Lemma extracted_text_is_a_source (tweet text : json) :
  get_text_from_tweet tweet = Ok text ->
  In (Some text) [reshared_extended_text tweet; reshared_short_text tweet;
                  own_extended_text tweet; own_short_text tweet].
Proof.
  intros H. destruct tweet as [| | | | |fields]; try discriminate H.
  unfold get_text_from_tweet in H.
  unfold reshared_extended_text, reshared_short_text, own_extended_text, own_short_text.
  cbn [field].
  destruct (fields !! k_retweeted_status) as [rs|] eqn:Hrt; run_lookup_in H.
  - destruct rs as [| | | s|items|rfields]; run_lookup_in H; try discriminate H.
    + destruct (is_substring _ _); discriminate H.
    + destruct (existsb _ _); discriminate H.
    + destruct (rfields !! k_extended_tweet) as [et|] eqn:Het; run_lookup_in H.
      * destruct et as [| | | | |efields]; try discriminate H. run_lookup_in H.
        destruct (efields !! k_full_text) as [full|] eqn:Hfull; [|discriminate H].
        injection H as <-. left. cbn [mbind option_bind field]. rewrite Het.
        cbn [mbind option_bind field]. exact Hfull.
      * destruct (rfields !! k_text) as [t|] eqn:Ht; [|discriminate H].
        injection H as <-. right. left. cbn [mbind option_bind field]. exact Ht.
  - destruct (fields !! k_extended_tweet) as [et|] eqn:Het; run_lookup_in H.
    + destruct et as [| | | | |efields]; try discriminate H. run_lookup_in H.
      destruct (efields !! k_full_text) as [full|] eqn:Hfull; [|discriminate H].
      injection H as <-. right. right. left. cbn [mbind option_bind field]. exact Hfull.
    + destruct (fields !! k_text) as [t|] eqn:Ht; [|discriminate H].
      injection H as <-. right. right. right. left. reflexivity.
Qed.

(** C5: for a raw record, [get_text_from_tweet] returns the first present
    of the reshared record's extended text, the reshared record's short
    text, the record's own extended text and its own short text; what it
    returns is the value of one of these four sources, as it stands. *)
Theorem text_by_precedence (tweet : json) :
  raw_record tweet ->
  exists text,
    get_text_from_tweet tweet = Ok text
    /\ precedence_rule tweet = Some text
    /\ In (Some text) [reshared_extended_text tweet; reshared_short_text tweet;
                       own_extended_text tweet; own_short_text tweet].
Proof.
  intros [Hown Hrs].
  apply record_shape_text in Hown as (fields & text & -> & Htext & Hext).
  unfold get_text_from_tweet, precedence_rule, reshared_extended_text,
    reshared_short_text, own_extended_text, own_short_text.
  cbn [field] in Hrs.
  destruct (fields !! k_retweeted_status) as [rs|] eqn:Hrt.
  - specialize (Hrs rs eq_refl).
    apply record_shape_text in Hrs as (rfields & rtext & -> & Hrtext & Hrext).
    destruct (rfields !! k_extended_tweet) as [et|] eqn:Het.
    + destruct Hrext as (efields & full & -> & Hfull).
      exists full. run_lookup. repeat split. left. reflexivity.
    + exists rtext. run_lookup. repeat split. right. left. reflexivity.
  - destruct (fields !! k_extended_tweet) as [et|] eqn:Het.
    + destruct Hext as (efields & full & -> & Hfull).
      exists full. run_lookup. repeat split. right. right. left. reflexivity.
    + exists text. run_lookup. repeat split. right. right. right. left. reflexivity.
Qed.

(** Witness of [text_by_precedence]: the reshared record's extended text. *)
Lemma text_by_precedence_witness :
  exists text,
    get_text_from_tweet sample_tweet = Ok text
    /\ precedence_rule sample_tweet = Some text
    /\ In (Some text) [reshared_extended_text sample_tweet;
                       reshared_short_text sample_tweet;
                       own_extended_text sample_tweet; own_short_text sample_tweet].
Proof.
  apply (text_by_precedence sample_tweet).
  split; [split|].
  - vm_compute. eexists. reflexivity.
  - intros H. vm_compute in H. destruct H as [x H]. discriminate H.
  - intros rs Hrs. vm_compute in Hrs. injection Hrs as <-. split.
    + vm_compute. eexists. reflexivity.
    + intros _. vm_compute. eexists. reflexivity.
Defined.

(** Outside the shape of a raw record the extraction raises: a reshared
    record without its short text is not replaced by the record's own. *)
Lemma reshare_without_text_raises :
  get_text_from_tweet
    (JObj (<[k_text := JStr (py "own")]> (<[k_retweeted_status := JObj ∅]> ∅)))
  = Raise KeyError.
Proof. vm_compute. reflexivity. Qed.

(* ===================================================================== *)
(** * The driver *)
(* ===================================================================== *)

Lemma string_app_inv_head (s a b : string) :
  (s ++ a)%string = (s ++ b)%string -> a = b.
Proof. induction s as [|c s IH]; simpl; intros H; [exact H|]. injection H as H. auto. Qed.

(** The nine files of the corpus are pairwise distinct. *)
Ltac path_ne :=
  let H := fresh "H" in
  let Hd := fresh "Hd" in
  let Hf := fresh "Hf" in
  intros H; apply app_inj_tail in H as [Hd Hf];
  first
    [ unfold sml_tweets, lrg_tweets, all_tweets in Hd;
      apply app_inv_head in Hd; injection Hd as Hd;
      apply string_app_inv_head in Hd; discriminate Hd
    | unfold tokens_file in Hf; apply string_app_inv_head in Hf; discriminate Hf ].

Ltac lookup_files :=
  repeat first [ rewrite lookup_insert_eq | rewrite lookup_insert_ne by path_ne ].

Section DriverFacts.
Context {U : UnicodeData} {mt : MosesTokenizer}.
Implicit Types (num_tokens : option Z) (w : world).

(** What a pass writes, what it leaves and how it ends do not depend on
    what the file held before. *)
Lemma body_frame num_tokens num_tokens_tweet_min idx text c st st0 :
  f_out st = c ++ f_out st0 ->
  total_num_tokens st = total_num_tokens st0 ->
  fst (body num_tokens num_tokens_tweet_min idx text st)
  = fst (body num_tokens num_tokens_tweet_min idx text st0)
  /\ f_out (snd (body num_tokens num_tokens_tweet_min idx text st))
     = c ++ f_out (snd (body num_tokens num_tokens_tweet_min idx text st0))
  /\ total_num_tokens (snd (body num_tokens num_tokens_tweet_min idx text st))
     = total_num_tokens (snd (body num_tokens num_tokens_tweet_min idx text st0)).
Proof.
  intros Hout Htot. unfold body. cbn [f_out total_num_tokens i printed].
  rewrite Hout, Htot.
  destruct (_ <? num_tokens_tweet_min); [repeat split|].
  destruct (over_budget _ _); [repeat split; cbn; symmetry; apply app_assoc|].
  destruct (_ && _); repeat split; cbn; symmetry; apply app_assoc.
Qed.

Lemma loop_frame num_tokens num_tokens_tweet_min texts :
  forall idx c st st0,
    f_out st = c ++ f_out st0 ->
    total_num_tokens st = total_num_tokens st0 ->
    f_out (fst (fst (loop num_tokens num_tokens_tweet_min idx texts st)))
    = c ++ f_out (fst (fst (loop num_tokens num_tokens_tweet_min idx texts st0)))
    /\ snd (fst (loop num_tokens num_tokens_tweet_min idx texts st))
       = snd (fst (loop num_tokens num_tokens_tweet_min idx texts st0)).
Proof.
  induction texts as [|text texts IH]; intros idx c st st0 Hout Htot.
  - split; [exact Hout | reflexivity].
  - cbn [loop].
    destruct (body_frame num_tokens num_tokens_tweet_min idx text c st st0 Hout Htot)
      as (Hc & Hout' & Htot').
    destruct (body _ _ idx text st) as [c1 st1].
    destruct (body _ _ idx text st0) as [c0 st0'].
    cbn [fst snd] in Hc, Hout', Htot'. subst c0.
    destruct c1; [apply IH; assumption|].
    split; [exact Hout' | reflexivity].
Qed.

Lemma write_tweettext_files file_path num_tokens m num_tokens_tweet_min w :
  files (write_tweettext file_path num_tokens m num_tokens_tweet_min w)
  = <[file_path := open_file (files w) file_path m
                   ++ fst (drain num_tokens num_tokens_tweet_min (text_iter w))]>
      (files w)
  /\ text_iter (write_tweettext file_path num_tokens m num_tokens_tweet_min w)
     = snd (drain num_tokens num_tokens_tweet_min (text_iter w)).
Proof.
  unfold write_tweettext, drain.
  destruct (loop_frame num_tokens num_tokens_tweet_min (text_iter w) 0
              (open_file (files w) file_path m) (start w file_path m) fresh)
    as [Hout Hrest]; [symmetry; apply app_nil_r | reflexivity |].
  destruct (loop _ _ 0 (text_iter w) (start w file_path m)) as [[st rest] b].
  destruct (loop _ _ 0 (text_iter w) fresh) as [[st0 rest0] b0].
  cbn [fst snd finish files text_iter] in *. rewrite Hout, Hrest.
  split; reflexivity.
Qed.

Lemma copyfile_ok src dst w content :
  files w !! src = Some content ->
  exists w', copyfile src dst w = Ok w'
             /\ files w' = <[dst := content]> (files w)
             /\ text_iter w' = text_iter w.
Proof.
  intros H. unfold copyfile. rewrite H. eexists. repeat split.
Qed.

(** One round of the loop over the splits: the small file is written
    anew and copied to the two other tiers. *)
Lemma split_body_files args w split token_num :
  exists w',
    split_body args w (split, token_num) = Ok w'
    /\ files w'
       = <[all_tweets args ++ [tokens_file args split]
             := fst (drain (Some token_num) (tokens_min args) (text_iter w))]>
           (<[lrg_tweets args ++ [tokens_file args split]
                := fst (drain (Some token_num) (tokens_min args) (text_iter w))]>
              (<[sml_tweets args ++ [tokens_file args split]
                   := fst (drain (Some token_num) (tokens_min args) (text_iter w))]>
                 (files w)))
    /\ text_iter w' = snd (drain (Some token_num) (tokens_min args) (text_iter w)).
Proof.
  unfold split_body.
  destruct (write_tweettext_files (sml_tweets args ++ [tokens_file args split])
              (Some token_num) W (tokens_min args) w) as [Hf Hi].
  cbn [open_file app] in Hf.
  set (w1 := write_tweettext _ _ _ _ w) in *.
  set (content := fst (drain (Some token_num) (tokens_min args) (text_iter w))) in *.
  destruct (copyfile_ok (sml_tweets args ++ [tokens_file args split])
              (lrg_tweets args ++ [tokens_file args split])
              (print (Copying (sml_tweets args ++ [tokens_file args split])
                        (lrg_tweets args ++ [tokens_file args split])
                        (all_tweets args ++ [tokens_file args split])) w1) content)
    as (w2 & E2 & F2 & I2).
  { cbn [print files]. rewrite Hf. apply lookup_insert_eq. }
  rewrite E2. cbn [mbind res_bind].
  destruct (copyfile_ok (sml_tweets args ++ [tokens_file args split])
              (all_tweets args ++ [tokens_file args split]) w2 content)
    as (w3 & E3 & F3 & I3).
  { rewrite F2. cbn [print files]. rewrite Hf.
    rewrite lookup_insert_ne by path_ne. apply lookup_insert_eq. }
  exists w3. split; [exact E3|]. split.
  - rewrite F3, F2. cbn [print files]. rewrite Hf. reflexivity.
  - rewrite I3, I2. cbn [print text_iter]. exact Hi.
Qed.


End DriverFacts.

Section DriverClaims.
Context {U : UnicodeData} {mt : MosesTokenizer}.

End DriverClaims.



(* ===================================================================== *)
(** * Further properties: text extraction *)
(* ===================================================================== *)

(** X2: when a record reshares another one, what [get_text_from_tweet]
    returns or raises depends on the reshared record alone: the other
    fields of the record play no part. *)
Theorem reshare_decides (fields fields' : gmap str json) (rs : json) :
  fields !! k_retweeted_status = Some rs ->
  fields' !! k_retweeted_status = Some rs ->
  get_text_from_tweet (JObj fields) = get_text_from_tweet (JObj fields').
Proof.
  intros H H'. unfold get_text_from_tweet.
  cbn [py_in_keys py_getitem]. rewrite H, H'.
  rewrite !bool_decide_eq_true_2 by (eexists; reflexivity). reflexivity.
Qed.

(** X3: an extended part without its full text makes the extraction raise
    [KeyError], in the reshared record when there is one and in the record
    itself otherwise; the short text next to it is not used instead. *)
Theorem extended_without_full_text_raises (fields sel efields : gmap str json) :
  fields !! k_retweeted_status = Some (JObj sel)
  \/ (fields !! k_retweeted_status = None /\ sel = fields) ->
  sel !! k_extended_tweet = Some (JObj efields) ->
  efields !! k_full_text = None ->
  get_text_from_tweet (JObj fields) = Raise KeyError.
Proof.
  intros [Hrs|[Hrs ->]] Hext Hfull; unfold get_text_from_tweet; run_lookup; reflexivity.
Qed.

(** Witness of [reshare_decides]: with and without a text of its own. *)
Lemma reshare_decides_witness :
  get_text_from_tweet (JObj resharing_fields)
  = get_text_from_tweet (JObj bare_resharing_fields).
Proof.
  apply (reshare_decides resharing_fields bare_resharing_fields reshared_sample).
  - vm_compute. reflexivity.
  - vm_compute. reflexivity.
Defined.

(** Witness of [extended_without_full_text_raises]. *)
Lemma extended_without_full_text_raises_witness :
  get_text_from_tweet (JObj truncated_fields) = Raise KeyError.
Proof.
  apply (extended_without_full_text_raises truncated_fields truncated_fields ∅).
  - right. split; [vm_compute; reflexivity | reflexivity].
  - vm_compute. reflexivity.
  - vm_compute. reflexivity.
Defined.

(** Witness of [extracted_text_is_a_source]. *)
Lemma extracted_text_is_a_source_witness :
  In (Some (JStr (py "rt full")))
    [reshared_extended_text sample_tweet; reshared_short_text sample_tweet;
     own_extended_text sample_tweet; own_short_text sample_tweet].
Proof.
  apply (extracted_text_is_a_source sample_tweet (JStr (py "rt full"))).
  vm_compute. reflexivity.
Defined.

(* ===================================================================== *)
(** * Further properties: the normalizer *)
(* ===================================================================== *)

Lemma drop_while_suffix (p : char -> bool) (s : str) : suffix (drop_while p s) s.
Proof.
  induction s as [|c s IH]; [reflexivity|]. simpl.
  destruct (p c); [apply suffix_cons_r, IH | reflexivity].
Qed.

Lemma drop_upto_suffix n (p : char -> bool) (s : str) : suffix (drop_upto n p s) s.
Proof.
  revert s. induction n as [|n IH]; intros [|c s]; simpl; try reflexivity.
  destruct (p c); [apply suffix_cons_r, IH | reflexivity].
Qed.

Lemma take_upto_elem n (p : char -> bool) (s : str) (x : char) :
  x ∈ take_upto n p s -> x ∈ s.
Proof.
  revert s. induction n as [|n IH]; intros [|c s]; simpl;
    try (intros H; apply elem_of_nil in H; contradiction).
  destruct (p c); [|intros H; apply elem_of_nil in H; contradiction].
  intros H. apply elem_of_cons in H as [->|H]; [left | right; apply IH, H].
Qed.

(** A scan whose replacements are made of characters of the match and of
    the character [sp] brings no other character in. *)
Lemma sub_chars (m : str -> option (str * str)) (sp : char) :
  (forall t repl rest, m t = Some (repl, rest) ->
     suffix rest t /\ forall x, x ∈ repl -> x ∈ t \/ x = sp) ->
  forall s x, x ∈ sub m s -> x ∈ s \/ x = sp.
Proof.
  intros Hm s. remember (length s) as n eqn:Hn. revert s Hn.
  induction n as [n IH] using lt_wf_ind. intros s -> x.
  destruct s as [|c s]; [intros H; left; exact H|].
  rewrite sub_cons.
  assert (Hcopy : x ∈ c :: sub m s -> x ∈ c :: s \/ x = sp).
  { intros H. apply elem_of_cons in H as [->|H]; [left; left|].
    destruct (IH (length s) ltac:(simpl; lia) s eq_refl x H) as [H'|H'];
      [left; right; exact H' | right; exact H']. }
  destruct (m (c :: s)) as [[repl rest]|] eqn:E; [|exact Hcopy].
  destruct (length rest <? length (c :: s))%nat eqn:Hlt; [|exact Hcopy].
  apply Nat.ltb_lt in Hlt. destruct (Hm _ _ _ E) as [Hsuf Hrepl].
  intros H. apply elem_of_app in H as [H|H]; [apply Hrepl, H|].
  destruct (IH (length rest) Hlt rest eq_refl x H) as [H'|H'];
    [left; eapply suffix_elem; eassumption | right; exact H'].
Qed.

Lemma match_at_suffix (r : regex) (t rest : str) :
  match_at r t = Some rest -> suffix rest t.
Proof.
  unfold match_at. intros H. apply exec_suffix in H as (s' & Hs' & [= ->]). exact Hs'.
Qed.

Lemma sub_const_chars (r : regex) (repl : str) (sp : char) :
  (forall t, is_Some (match_at r t) -> forall x, x ∈ repl -> x ∈ t \/ x = sp) ->
  forall s x, x ∈ sub_const r repl s -> x ∈ s \/ x = sp.
Proof.
  intros Hr. unfold sub_const. apply sub_chars. intros t repl' rest H.
  destruct (match_at r t) as [rest'|] eqn:E; [|discriminate H].
  injection H as <- <-. split; [eapply match_at_suffix, E|].
  apply Hr. rewrite E. eexists; reflexivity.
Qed.

Section NormalizerShape.
Context {U : UnicodeData}.

(** The reading of [mention_regex] with any replacement of group 1. *)
Lemma mention_scan_at (f : str -> str) s :
  sub (fun s => option_map (fun gr => (f (fst gr), snd gr)) (match_mention s)) s
  = sub (fun s => option_map (fun gr => (f (fst gr), snd gr)) (mention_at s)) s.
Proof. apply sub_ext. intros t. rewrite match_mention_at. reflexivity. Qed.

Lemma mention_scan_split (f : str -> str) pre t :
  sub (fun s => option_map (fun gr => (f (fst gr), snd gr)) (mention_at s))
    (pre ++ ch "@" :: t)
  = sub (fun s => option_map (fun gr => (f (fst gr), snd gr)) (mention_at s)) pre
    ++ sub (fun s => option_map (fun gr => (f (fst gr), snd gr)) (mention_at s))
         (ch "@" :: t).
Proof.
  apply sub_app_boundary.
  - intros p Hp. rewrite (mention_at_stop p t Hp).
    destruct (mention_at p) as [[g r]|]; reflexivity.
  - intros p repl rest H.
    destruct (mention_at p) as [[g r]|] eqn:E; [|discriminate].
    injection H as _ <-. eapply mention_at_shorter, E.
Qed.

Lemma mention_at_suffix t g rest :
  mention_at t = Some (g, rest) ->
  suffix rest t /\ forall x, x ∈ g -> x ∈ t.
Proof.
  unfold mention_at. destruct t as [|c [|c1 s2]]; try discriminate.
  destruct (_ && _); [|discriminate]. intros H.
  assert (Hg : g = c1 :: take_upto 14 isword s2) by congruence.
  assert (Hr : rest = drop_while is_colon
                        (drop_while is_space (drop_upto 14 isword s2))) by congruence.
  clear H. split.
  - rewrite Hr. do 2 apply suffix_cons_r.
    etrans; [apply drop_while_suffix|]. etrans; [apply drop_while_suffix|].
    apply drop_upto_suffix.
  - intros x Hx. rewrite Hg in Hx. right.
    apply elem_of_cons in Hx as [->|Hx]; [left | right; eapply take_upto_elem, Hx].
Qed.

Lemma multi_space_sub_single_spaced s : single_spaced (multi_space_sub s) = true.
Proof.
  remember (length s) as n eqn:Hn. revert s Hn.
  induction n as [n IH] using lt_wf_ind. intros s ->.
  destruct s as [|c s]; [reflexivity|]. rewrite multi_space_sub_cons.
  destruct (isspace c) eqn:Hc.
  - cbn [single_spaced]. rewrite isspace_space.
    change (chr_eqb (ch " ") (ch " ")) with true.
    rewrite multi_space_sub_head by apply drop_while_head. cbn [andb negb].
    eapply IH; [|reflexivity]. pose proof (drop_while_length isspace s).
    cbn [length]. lia.
  - cbn [single_spaced]. rewrite Hc. cbn [andb].
    eapply IH; [|reflexivity]. cbn [length]. lia.
Qed.

Lemma multi_space_sub_fixed s : single_spaced s = true -> multi_space_sub s = s.
Proof.
  induction s as [|c s IH]; [reflexivity|]. cbn [single_spaced].
  intros H. apply andb_true_iff in H as [Hc Hs]. rewrite multi_space_sub_cons.
  destruct (isspace c).
  - apply andb_true_iff in Hc as [Hc Hnext].
    apply N.eqb_eq in Hc. apply negb_true_iff in Hnext.
    rewrite (drop_while_none _ _ Hnext), (IH Hs), Hc. reflexivity.
  - rewrite (IH Hs). reflexivity.
Qed.

Lemma tagless_suffix s t :
  tagless s = true -> suffix t s -> hashtag_at t = None.
Proof.
  intros Hs [k ->]. induction k as [|c k IH].
  - destruct t as [|c t]; [reflexivity|]. cbn [app tagless] in Hs.
    apply andb_true_iff in Hs as [Hc _]. apply negb_true_iff in Hc.
    unfold hashtag_at. rewrite Hc. reflexivity.
  - cbn [app tagless] in Hs. apply andb_true_iff in Hs as [_ Hs]. apply IH, Hs.
Qed.

(** X4: every blank in the output of the Normalizer is a single space
    between two characters that are not blanks, at the ends of the text
    apart: tabs, line feeds and runs of spaces do not survive.  The same
    holds for the sibling [clean_line]. *)
Theorem normalizer_output_single_spaced (line : str) :
  single_spaced (clean_line_mod line) = true
  /\ single_spaced (clean_line line) = true
  /\ multi_space_sub (clean_line_mod line) = clean_line_mod line.
Proof.
  split; [|split].
  - unfold clean_line_mod. apply multi_space_sub_single_spaced.
  - unfold clean_line. apply multi_space_sub_single_spaced.
  - unfold clean_line_mod. apply multi_space_sub_idempotent.
Qed.

(** X5: [hashtag_regex] matches at no position of the output of the
    Normalizer, so the hashtag step leaves the output as it is. *)
Theorem normalizer_output_has_no_hashtag (line t : str) :
  suffix t (clean_line_mod line) ->
  match_at hashtag_regex t = None
  /\ hashtag_sub (clean_line_mod line) = clean_line_mod line.
Proof.
  intros Ht.
  assert (Htag : tagless (clean_line_mod line) = true).
  { unfold clean_line_mod. apply multi_space_sub_tagless, hashtag_sub_is_tagless. }
  split.
  - rewrite match_hashtag_at. eapply tagless_suffix; eassumption.
  - apply hashtag_sub_tagless, Htag.
Qed.

(** X6: the Normalizer brings no character in but the space: every
    character of its output is a character of the input or a space. *)
Theorem normalizer_adds_only_spaces (line : str) (x : char) :
  x ∈ clean_line_mod line -> x ∈ line \/ x = ch " ".
Proof.
  unfold clean_line_mod. intros H.
  assert (Hsp : forall y : char, y ∈ py " " -> y = ch " ").
  { intros y Hy. apply list_elem_of_singleton in Hy. exact Hy. }
  assert (Hnil : forall (y : char) (t : str), y ∈ @nil char -> y ∈ t \/ y = ch " ").
  { intros y t Hy. apply elem_of_nil in Hy. contradiction. }
  apply (sub_const_chars _ _ (ch " ")) in H;
    [|intros t _ y Hy; right; apply Hsp, Hy].
  destruct H as [H|H]; [|right; exact H].
  apply (sub_const_chars _ _ (ch " ")) in H;
    [|intros t _ y Hy; right; apply Hsp, Hy].
  destruct H as [H|H]; [|right; exact H].
  unfold mention_sub in H. rewrite mention_scan_at in H.
  apply (sub_chars _ (ch " ")) in H.
  2:{ intros t repl rest Hm.
      destruct (mention_at t) as [[g r]|] eqn:E; [|discriminate Hm].
      injection Hm as <- <-. cbn [fst snd].
      destruct (mention_at_suffix _ _ _ E) as [Hsuf Hg]. split; [exact Hsuf|].
      intros y Hy. unfold clean_mention in Hy.
      apply list_elem_of_In, in_map_iff in Hy as (z & Hz & Hin).
      apply list_elem_of_In in Hin.
      destruct (isalpha z); [left; subst y; apply Hg, Hin | right; congruence]. }
  destruct H as [H|H]; [|right; exact H].
  apply (sub_const_chars _ _ (ch " ")) in H.
  2:{ intros t Ht y Hy. apply multi_dot_match_dot in Ht.
      change (py " . ") with [ch " "; ch "."; ch " "] in Hy.
      apply elem_of_cons in Hy as [->|Hy]; [right; reflexivity|].
      apply elem_of_cons in Hy as [->|Hy]; [left; exact Ht|].
      right. apply list_elem_of_singleton in Hy. exact Hy. }
  destruct H as [H|H]; [|right; exact H].
  apply (sub_const_chars _ _ (ch " ")) in H; [|intros t _ y; apply Hnil].
  destruct H as [H|H]; [|right; exact H].
  apply (sub_const_chars _ _ (ch " ")) in H; [|intros t _ y; apply Hnil].
  destruct H as [H|H]; [|right; exact H].
  left. unfold strip_rt in H. destruct (decide _); [|exact H].
  rewrite <- (take_drop 3 line). apply elem_of_app. right. exact H.
Qed.

(** X7: a text that does not begin with the repost marker, holds none of
    ".", ":" and "@", no hashtag, and no blank but single spaces goes
    through the Normalizer unchanged. *)
Theorem plain_text_unchanged (line : str) :
  take 3 line <> py "RT " ->
  Forall (fun x => x ∉ line) marker_chars ->
  tagless line = true ->
  single_spaced line = true ->
  clean_line_mod line = line.
Proof.
  intros Hrt Hm Htag Hsp.
  apply Forall_cons in Hm as [Hdot Hm]. apply Forall_cons in Hm as [Hcolon Hm].
  apply Forall_cons in Hm as [Hat _].
  unfold clean_line_mod, strip_rt.
  destruct (decide (take 3 line = py "RT ")); [contradiction|].
  rewrite url_sub_absent, pic_url_sub_absent, multi_dot_sub_absent,
    mention_sub_absent by assumption.
  rewrite hashtag_sub_tagless by exact Htag.
  apply multi_space_sub_fixed, Hsp.
Qed.

(** X8: the two normalizers of the script differ in the mention step only:
    on a text in which no "@" reaches that step, [clean_line] and
    [clean_line_mod] give the same output. *)
Theorem normalizers_agree_without_mentions (line : str) :
  ch "@" ∉ before_mentions line ->
  clean_line line = clean_line_mod line.
Proof.
  intros Hat. unfold clean_line, clean_line_mod.
  fold (before_mentions line).
  rewrite (mention_sub_absent _ Hat).
  unfold mention_sub_template.
  rewrite (sub_absent _ (ch "@")); [reflexivity | | exact Hat].
  intros t Ht. apply mention_match_at. eapply is_Some_option_map. exact Ht.
Qed.

(** X9: in the sibling [clean_line], a mention marker that reaches the
    mention step is replaced by its handle between two spaces, digits and
    underscores included. *)
Theorem clean_line_keeps_handle (line pre h sp col rest : str) :
  before_mentions line = pre ++ ch "@" :: h ++ sp ++ col ++ rest ->
  is_marker h sp col rest = true ->
  clean_line line
  = multi_space_sub
      (hashtag_sub (mention_sub_template pre ++ (py " " ++ h ++ py " ")
                    ++ mention_sub_template rest)).
Proof.
  intros Hline Hm.
  change (clean_line line)
    with (multi_space_sub (hashtag_sub (mention_sub_template (before_mentions line)))).
  rewrite Hline. unfold mention_sub_template.
  rewrite !(mention_scan_at (fun g => py " " ++ g ++ py " ")).
  rewrite (mention_scan_split (fun g => py " " ++ g ++ py " ")). do 2 f_equal. f_equal.
  rewrite sub_cons, (mention_at_marker _ _ _ _ Hm). cbn [option_map fst snd].
  rewrite (proj2 (Nat.ltb_lt _ _)); [reflexivity|].
  cbn [length]. rewrite !length_app. lia.
Qed.
End NormalizerShape.

(* ===================================================================== *)
(** * Further properties: links *)
(* ===================================================================== *)

(** One round of the group of [url_regex]: a character of one of the four
    classes is taken; the escape alternative never adds a match, as "%"
    is in the range from "$" to "_". *)
Lemma url_group_takes {A} (k : str -> option A) (c : char) (s : str) :
  url_char c = true -> is_Some (k s) ->
  exec (Any [Chr ascii_letter; Chr ascii_digit; Chr url_class1; Chr url_class2;
             Seq (Lit "%") (Seq (Chr hex_digit) (Chr hex_digit))]) k (c :: s)
  = k s.
Proof.
  intros Hc [a Ha]. unfold Any. cbn [fold_right].
  rewrite !exec_alt, !exec_chr, Ha. unfold url_char in Hc.
  destruct (ascii_letter c); [reflexivity|].
  destruct (ascii_digit c); [reflexivity|].
  destruct (url_class1 c); [reflexivity|].
  destruct (url_class2 c); [reflexivity | discriminate Hc].
Qed.

Lemma percent_in_class1 (c : char) : url_class1 c = false -> chr_eqb (ch "%") c = false.
Proof.
  intros H. destruct (chr_eqb (ch "%") c) eqn:E; [|reflexivity].
  apply N.eqb_eq in E. subst c. discriminate H.
Qed.

Lemma url_group_stops {A} (k : str -> option A) (s : str) :
  starts_with url_char s = false ->
  exec (Any [Chr ascii_letter; Chr ascii_digit; Chr url_class1; Chr url_class2;
             Seq (Lit "%") (Seq (Chr hex_digit) (Chr hex_digit))]) k s
  = None.
Proof.
  intros Hs. unfold Any, Lit. cbn [fold_right].
  destruct s as [|c s]; [reflexivity|]. cbn [starts_with] in Hs.
  unfold url_char in Hs. apply orb_false_iff in Hs as [Hs H4].
  apply orb_false_iff in Hs as [Hs H3]. apply orb_false_iff in Hs as [H1 H2].
  rewrite !exec_alt, exec_seq, !exec_chr, H1, H2, H3, H4, (percent_in_class1 c H3).
  reflexivity.
Qed.

(** The repeated group before a continuation that cannot fail takes the
    whole run of class characters. *)
Lemma url_run {A} (k : str -> option A) :
  (forall s, is_Some (k s)) ->
  forall fuel s, (length s <= fuel)%nat ->
    star_iter
      (exec (Any [Chr ascii_letter; Chr ascii_digit; Chr url_class1; Chr url_class2;
                  Seq (Lit "%") (Seq (Chr hex_digit) (Chr hex_digit))]))
      k fuel s
    = k (drop_while url_char s).
Proof.
  intros Hk fuel. induction fuel as [|fuel IH]; intros s Hlen.
  - destruct s; [reflexivity | simpl in Hlen; lia].
  - cbn [star_iter]. destruct s as [|c s].
    + rewrite url_group_stops by reflexivity. reflexivity.
    + cbn [drop_while]. destruct (url_char c) eqn:Hc.
      * cbn [length] in Hlen.
        rewrite url_group_takes; [| exact Hc |].
        -- rewrite (proj2 (Nat.ltb_lt (length s) (length (c :: s))))
             by (cbn [length]; lia).
           rewrite IH by lia. destruct (Hk (drop_while url_char s)) as [a ->].
           reflexivity.
        -- rewrite (proj2 (Nat.ltb_lt (length s) (length (c :: s))))
             by (cbn [length]; lia).
           rewrite IH by lia. apply Hk.
      * rewrite url_group_stops by (cbn [starts_with]; exact Hc). reflexivity.
Qed.

Lemma url_tail (s : str) :
  exec (Plus (Any [Chr ascii_letter; Chr ascii_digit; Chr url_class1; Chr url_class2;
                   Seq (Lit "%") (Seq (Chr hex_digit) (Chr hex_digit))])) Some s
  = if starts_with url_char s then Some (drop_while url_char s) else None.
Proof.
  unfold Plus. rewrite exec_seq.
  destruct (starts_with url_char s) eqn:Hs.
  - destruct s as [|c s]; [discriminate Hs|]. cbn [starts_with] in Hs.
    cbn [drop_while]. rewrite Hs.
    assert (Hstar : exec (Star (Any [Chr ascii_letter; Chr ascii_digit; Chr url_class1;
                                     Chr url_class2;
                                     Seq (Lit "%") (Seq (Chr hex_digit) (Chr hex_digit))]))
                      Some s = Some (drop_while url_char s)).
    { cbn [exec]. apply (url_run Some); [intros; eexists; reflexivity | lia]. }
    rewrite url_group_takes; [exact Hstar | exact Hs | rewrite Hstar; eexists; reflexivity].
  - apply url_group_stops, Hs.
Qed.

(** What [url_regex] matches after either scheme. *)
Lemma url_match_scheme (s : str) :
  match_at url_regex (py "http://" ++ s)
  = (if starts_with url_char s then Some (drop_while url_char s) else None)
  /\ match_at url_regex (py "https://" ++ s)
     = (if starts_with url_char s then Some (drop_while url_char s) else None).
Proof.
  unfold match_at, url_regex. rewrite <- (url_tail s).
  split; [reflexivity|].
  set (X := exec (Plus _) Some s).
  change (match X with Some a => Some a | None => None end = X).
  destruct X; reflexivity.
Qed.

Lemma url_match_first (c : char) (s : str) :
  c <> ch "h" -> match_at url_regex (c :: s) = None.
Proof.
  intros Hc. destruct (match_at url_regex (c :: s)) as [rest|] eqn:E; [|reflexivity].
  exfalso. unfold match_at, url_regex, Word in E.
  cbn [list_ascii_of_string fold_right] in E.
  rewrite !exec_seq in E. unfold Lit in E at 1. rewrite exec_chr in E.
  destruct (chr_eqb (ch "h") c) eqn:Eh; [|discriminate E].
  apply N.eqb_eq in Eh. congruence.
Qed.

(** A scan copies the characters on which the pattern cannot start. *)
Lemma sub_skip (m : str -> option (str * str)) (x : char) :
  (forall c s, c <> x -> m (c :: s) = None) ->
  forall pre t, x ∉ pre -> sub m (pre ++ t) = pre ++ sub m t.
Proof.
  intros Hm pre t. induction pre as [|c pre IH]; intros Hx; [reflexivity|].
  cbn [app]. rewrite sub_cons, Hm.
  - f_equal. apply IH. intros H. apply Hx. right. exact H.
  - intros ->. apply Hx. left.
Qed.

(** X10: a link takes with it every character up to the first one outside
    the classes of the pattern: after "http://" or "https://", the whole
    run of letters, digits, characters from "$" to "_", "!", "*", "(",
    ")", "," and spaces is removed with the scheme, and the scan goes on
    after the run. *)
Theorem url_sub_takes_whole_run (pre run rest : str) :
  ch "h" ∉ pre ->
  run <> [] ->
  forallb url_char run = true ->
  starts_with url_char rest = false ->
  url_sub (pre ++ py "http://" ++ run ++ rest) = pre ++ url_sub rest
  /\ url_sub (pre ++ py "https://" ++ run ++ rest) = pre ++ url_sub rest.
Proof.
  intros Hpre Hne Hrun Hrest.
  assert (Hskip : forall t, url_sub (pre ++ t) = pre ++ url_sub t).
  { intros t. unfold url_sub, sub_const. apply (sub_skip _ (ch "h")); [|exact Hpre].
    intros c s Hc. rewrite url_match_first by exact Hc. reflexivity. }
  assert (Hstart : starts_with url_char (run ++ rest) = true).
  { destruct run as [|c run]; [congruence|]. cbn [forallb] in Hrun.
    apply andb_true_iff in Hrun as [Hc _]. exact Hc. }
  assert (Hdrop : drop_while url_char (run ++ rest) = rest)
    by (apply drop_while_app; assumption).
  destruct (url_match_scheme (run ++ rest)) as [E1 E2].
  rewrite Hstart, Hdrop in E1, E2.
  rewrite !Hskip. split; f_equal.
  - unfold url_sub, sub_const.
    change (py "http://" ++ run ++ rest) with (ch "h" :: (py "ttp://" ++ run ++ rest)).
    rewrite sub_cons.
    change (ch "h" :: (py "ttp://" ++ run ++ rest)) with (py "http://" ++ run ++ rest).
    rewrite E1. cbn [option_map].
    rewrite (proj2 (Nat.ltb_lt _ _)); [reflexivity|].
    rewrite !length_app. cbn. lia.
  - unfold url_sub, sub_const.
    change (py "https://" ++ run ++ rest) with (ch "h" :: (py "ttps://" ++ run ++ rest)).
    rewrite sub_cons.
    change (ch "h" :: (py "ttps://" ++ run ++ rest)) with (py "https://" ++ run ++ rest).
    rewrite E2. cbn [option_map].
    rewrite (proj2 (Nat.ltb_lt _ _)); [reflexivity|].
    rewrite !length_app. cbn. lia.
Qed.

(* ===================================================================== *)
(** * Further properties: the budgeted writer *)
(* ===================================================================== *)

Lemma split_pieces (sep : char) (s : str) :
  Forall (fun piece => sep ∉ piece) (split sep s)
  /\ List.concat (split sep s) = List.filter (fun c => negb (chr_eqb c sep)) s
  /\ split sep s <> [].
Proof.
  induction s as [|c s (IH1 & IH2 & IH3)].
  - repeat split; [repeat constructor; apply not_elem_of_nil | discriminate].
  - cbn [split List.filter]. destruct (chr_eqb c sep) eqn:E.
    + repeat split; [constructor; [apply not_elem_of_nil | exact IH1] | exact IH2 | discriminate].
    + destruct (split sep s) as [|w ws]; [congruence|].
      apply Forall_cons in IH1 as [Hw Hws]. cbn [negb]. repeat split.
      * constructor; [|exact Hws]. apply not_elem_of_cons. split; [|exact Hw].
        intros ->. unfold chr_eqb in E. rewrite N.eqb_refl in E. discriminate E.
      * cbn [List.concat app] in *. f_equal. exact IH2.
      * discriminate.
Qed.

Lemma concat_filter_nonempty (l : list str) :
  List.concat (List.filter nonempty l) = List.concat l.
Proof.
  induction l as [|[|c w] l IH]; [reflexivity | exact IH |].
  cbn [List.filter nonempty List.concat]. rewrite IH. reflexivity.
Qed.

Section WriterAccounts.
Context {U : UnicodeData} {mt : MosesTokenizer}.
Implicit Types (num_tokens : option Z) (st : pass) (texts : list str).

Lemma accepted_false num_tokens_tweet_min text :
  accepted num_tokens_tweet_min text = false <->
  num_tokens_tweet_of text < num_tokens_tweet_min.
Proof. unfold accepted. rewrite negb_false_iff. apply Z.ltb_lt. Qed.

Lemma accepted_true num_tokens_tweet_min text :
  accepted num_tokens_tweet_min text = true <->
  num_tokens_tweet_min <= num_tokens_tweet_of text.
Proof. unfold accepted. rewrite negb_true_iff. apply Z.ltb_ge. Qed.

Lemma lines_of_cons num_tokens_tweet_min text texts :
  lines_of num_tokens_tweet_min (text :: texts)
  = (if accepted num_tokens_tweet_min text then line_of text else [])
    ++ lines_of num_tokens_tweet_min texts.
Proof.
  unfold lines_of. cbn [List.filter].
  destruct (accepted num_tokens_tweet_min text); reflexivity.
Qed.

Lemma count_of_cons num_tokens_tweet_min text texts :
  count_of num_tokens_tweet_min (text :: texts)
  = (if accepted num_tokens_tweet_min text then num_tokens_tweet_of text + 1 else 0)
    + count_of num_tokens_tweet_min texts.
Proof.
  unfold count_of. cbn [List.filter].
  destruct (accepted num_tokens_tweet_min text); reflexivity.
Qed.

(** The account of a loop: the texts drawn, what they add to the file and
    to the total. *)
Lemma loop_account num_tokens num_tokens_tweet_min texts :
  forall idx st st' rest b,
    loop num_tokens num_tokens_tweet_min idx texts st = (st', rest, b) ->
    exists drawn,
      texts = drawn ++ rest
      /\ f_out st' = f_out st ++ lines_of num_tokens_tweet_min drawn
      /\ total_num_tokens st'
         = total_num_tokens st + count_of num_tokens_tweet_min drawn.
Proof.
  induction texts as [|text texts IH]; intros idx st st' rest b H; cbn [loop] in H.
  - injection H as <- <- _. exists []. cbn. rewrite app_nil_r. repeat split. lia.
  - destruct (accepted num_tokens_tweet_min text) eqn:Hacc.
    + apply accepted_true in Hacc as Hge.
      destruct (body_accepted num_tokens num_tokens_tweet_min idx text st Hge)
        as (c & st1 & E & Hout & Htot & _).
      rewrite E in H. destruct c.
      * apply IH in H as (drawn & -> & Hout' & Htot').
        exists (text :: drawn). rewrite lines_of_cons, count_of_cons, Hacc.
        rewrite Hout', Hout, Htot', Htot, <- app_assoc. repeat split. lia.
      * injection H as <- <- _. exists [text].
        rewrite lines_of_cons, count_of_cons, Hacc. cbn.
        rewrite app_nil_r, Hout, Htot. repeat split. lia.
    + apply accepted_false in Hacc as Hlt.
      rewrite body_rejected in H by exact Hlt.
      apply IH in H as (drawn & -> & Hout' & Htot').
      exists (text :: drawn). rewrite lines_of_cons, count_of_cons, Hacc.
      cbn [f_out total_num_tokens app] in *. rewrite Hout', Htot'. repeat split.
Qed.

(** While the loop goes on the total is within the budget; when it breaks,
    the record drawn last is an accepted one, its line is the last one
    written, and it alone took the total over the budget. *)
Lemma loop_overshoot budget num_tokens_tweet_min texts :
  forall idx st st' rest b,
    total_num_tokens st <= budget ->
    loop (Some budget) num_tokens_tweet_min idx texts st = (st', rest, b) ->
    if b
    then exists drawn text,
           texts = drawn ++ text :: rest
           /\ accepted num_tokens_tweet_min text = true
           /\ f_out st'
              = f_out st ++ lines_of num_tokens_tweet_min drawn ++ line_of text
           /\ total_num_tokens st'
              = total_num_tokens st + count_of num_tokens_tweet_min drawn
                + (num_tokens_tweet_of text + 1)
           /\ total_num_tokens st + count_of num_tokens_tweet_min drawn <= budget
           /\ budget < total_num_tokens st'
    else total_num_tokens st' <= budget.
Proof.
  induction texts as [|text texts IH]; intros idx st st' rest b Hst H; cbn [loop] in H.
  - injection H as <- _ <-. exact Hst.
  - destruct (accepted num_tokens_tweet_min text) eqn:Hacc.
    + apply accepted_true in Hacc as Hge.
      destruct (body_accepted (Some budget) num_tokens_tweet_min idx text st Hge)
        as (c & st1 & E & Hout & Htot & _ & Hc).
      rewrite E in H. destruct c.
      * assert (Hst1 : total_num_tokens st1 <= budget).
        { destruct (over_budget (Some budget) (total_num_tokens st1)) eqn:Ho.
          - destruct Hc as [_ Hc]. specialize (Hc eq_refl). discriminate Hc.
          - cbn [over_budget] in Ho. apply Z.ltb_ge in Ho. exact Ho. }
        apply IH in H; [|exact Hst1]. destruct b; [|exact H].
        destruct H as (drawn & t & -> & Ht & Hout' & Htot' & Hle & Hlt).
        exists (text :: drawn), t.
        rewrite lines_of_cons, count_of_cons, Hacc, Hout', Htot', Hout, Htot.
        rewrite <- !app_assoc.
        split; [reflexivity|]. split; [exact Ht|]. split; [reflexivity|].
        split; [lia|]. split; lia.
      * injection H as <- <- <-. exists [], text.
        destruct Hc as [Hc _]. specialize (Hc eq_refl). cbn [over_budget] in Hc.
        apply Z.ltb_lt in Hc. rewrite Hout, Htot.
        split; [reflexivity|]. split; [exact Hacc|]. split; [reflexivity|].
        cbn [count_of List.filter List.map fold_right].
        split; [lia|]. split; lia.
    + apply accepted_false in Hacc as Hlt.
      rewrite body_rejected in H by exact Hlt.
      apply IH in H; [|exact Hst]. destruct b; [|exact H].
      destruct H as (drawn & t & -> & Ht & Hout' & Htot' & Hle & Hlt').
      exists (text :: drawn), t.
      rewrite lines_of_cons, count_of_cons, Hacc.
      cbn [f_out total_num_tokens app] in *.
      split; [reflexivity|]. split; [exact Ht|]. split; [exact Hout'|].
      split; [lia|]. split; [lia | exact Hlt'].
Qed.

(** X11: a pass adds to the file the lines of the accepted ones among the
    texts it draws, in their order, and to the total their accounted
    counts plus one each; the texts drawn and the texts left make up the
    texts given. *)
Theorem pass_writes_accepted_lines num_tokens num_tokens_tweet_min idx texts st :
  exists drawn,
    texts = drawn ++ snd (fst (loop num_tokens num_tokens_tweet_min idx texts st))
    /\ f_out (fst (fst (loop num_tokens num_tokens_tweet_min idx texts st)))
       = f_out st ++ lines_of num_tokens_tweet_min drawn
    /\ total_num_tokens (fst (fst (loop num_tokens num_tokens_tweet_min idx texts st)))
       = total_num_tokens st + count_of num_tokens_tweet_min drawn.
Proof.
  destruct (loop num_tokens num_tokens_tweet_min idx texts st) as [[st' rest] b] eqn:E.
  cbn [fst snd]. eapply loop_account, E.
Qed.

(** X12: a pass that starts within its budget and stops on it stops right
    after the record that took it over.  The texts split into those drawn
    before, this record and those left in the generator; the record is
    accepted and its line is the last one written; the total is what the
    pass started with, the counts of the accepted texts drawn before, and
    this record's count plus one; and without this record the total is
    within the budget.  A pass that ends otherwise has a total within the
    budget. *)
Theorem overshoot_within_last_record budget num_tokens_tweet_min idx texts st :
  total_num_tokens st <= budget ->
  if snd (loop (Some budget) num_tokens_tweet_min idx texts st)
  then exists drawn text,
         texts
         = drawn ++ text :: snd (fst (loop (Some budget) num_tokens_tweet_min idx texts st))
         /\ accepted num_tokens_tweet_min text = true
         /\ f_out (fst (fst (loop (Some budget) num_tokens_tweet_min idx texts st)))
            = f_out st ++ lines_of num_tokens_tweet_min drawn ++ line_of text
         /\ total_num_tokens (fst (fst (loop (Some budget) num_tokens_tweet_min idx texts st)))
            = total_num_tokens st + count_of num_tokens_tweet_min drawn
              + (num_tokens_tweet_of text + 1)
         /\ total_num_tokens st + count_of num_tokens_tweet_min drawn <= budget
         /\ budget
            < total_num_tokens (fst (fst (loop (Some budget) num_tokens_tweet_min idx texts st)))
  else total_num_tokens (fst (fst (loop (Some budget) num_tokens_tweet_min idx texts st)))
       <= budget.
Proof.
  intros Hst.
  destruct (loop (Some budget) num_tokens_tweet_min idx texts st) as [[st' rest] b] eqn:E.
  cbn [fst snd]. eapply loop_overshoot; eassumption.
Qed.

(** X13: a call of [write_tweettext] changes no file but its own, only
    moves the generator forward, and only adds to what was printed. *)
Theorem write_tweettext_touches_one_file file_path num_tokens m num_tokens_tweet_min w
    (p : path) :
  p <> file_path ->
  files (write_tweettext file_path num_tokens m num_tokens_tweet_min w) !! p
  = files w !! p
  /\ suffix (text_iter (write_tweettext file_path num_tokens m num_tokens_tweet_min w))
       (text_iter w)
  /\ prefix (stdout w)
       (stdout (write_tweettext file_path num_tokens m num_tokens_tweet_min w)).
Proof.
  intros Hp. unfold write_tweettext.
  destruct (loop _ _ 0 (text_iter w) (start w file_path m)) as [[st rest] b] eqn:E.
  cbn [finish files text_iter stdout]. split; [|split].
  - apply lookup_insert_ne. congruence.
  - eapply loop_forward, E.
  - apply prefix_app_r. reflexivity.
Qed.

(** X14: a pass without budget draws every text: it leaves the generator
    empty, the file holds what it held when it was opened followed by the
    lines of all the accepted texts, and the total it reports is the sum
    of their counts. *)
Theorem unbounded_pass_writes_all file_path m num_tokens_tweet_min w :
  text_iter (write_tweettext file_path None m num_tokens_tweet_min w) = []
  /\ files (write_tweettext file_path None m num_tokens_tweet_min w) !! file_path
     = Some (open_file (files w) file_path m
             ++ lines_of num_tokens_tweet_min (text_iter w))
  /\ exists documents,
       last (stdout (write_tweettext file_path None m num_tokens_tweet_min w))
       = Some (Summary file_path documents
                 (count_of num_tokens_tweet_min (text_iter w))).
Proof.
  unfold write_tweettext.
  destruct (loop_unbounded num_tokens_tweet_min (text_iter w) 0 (start w file_path m))
    as [st E].
  rewrite E. apply loop_account in E as (drawn & Hdrawn & Hout & Htot).
  rewrite app_nil_r in Hdrawn. subst drawn.
  cbn [finish files text_iter stdout]. split; [reflexivity|]. split.
  - rewrite lookup_insert_eq, Hout. reflexivity.
  - exists (i st). rewrite app_assoc, last_snoc, Htot. reflexivity.
Qed.

(** X15: the tokens counted for a record are not empty and hold no space,
    and put end to end they are the tokenized text without its spaces. *)
Theorem tokens_are_the_words (text : str) :
  Forall (fun token => token <> [] /\ ch " " ∉ token) (tokens_of text)
  /\ List.concat (tokens_of text)
     = List.filter (fun c => negb (chr_eqb c (ch " "))) (tokenized_of text).
Proof.
  unfold tokens_of.
  destruct (split_pieces (ch " ") (tokenized_of text)) as (Hsp & Hcat & _).
  split.
  - apply Forall_forall. intros token Hin.
    apply list_elem_of_In, filter_In in Hin as [Hin Hne].
    split; [destruct token; [discriminate Hne | discriminate]|].
    rewrite Forall_forall in Hsp. apply Hsp, list_elem_of_In, Hin.
  - rewrite concat_filter_nonempty. exact Hcat.
Qed.
End WriterAccounts.

(* ===================================================================== *)
(** * Further properties: the texts of the input and the driver *)
(* ===================================================================== *)

Section InputTexts.
Context {U : UnicodeData}.

Lemma text_of_line_normalized line text :
  text_of_line line = Ok text -> exists s, text = clean_line_mod s.
Proof.
  unfold text_of_line. destruct line as [tweet|]; [|discriminate].
  destruct (get_text_from_tweet tweet) as [v|e]; [|discriminate].
  cbn [mbind res_bind]. destruct v; try discriminate.
  cbn [clean_value]. intros [= <-]. eexists. reflexivity.
Qed.

Lemma get_texts_lines_ok lines :
  forall texts, get_texts_lines lines = Ok texts ->
    length texts = length lines
    /\ Forall (fun text => exists s, text = clean_line_mod s) texts.
Proof.
  induction lines as [|line lines IH]; intros texts H; cbn [get_texts_lines] in H.
  - injection H as <-. split; [reflexivity | constructor].
  - destruct (text_of_line line) as [text|e] eqn:E; [|discriminate H].
    cbn [mbind res_bind] in H.
    destruct (get_texts_lines lines) as [texts'|e]; [|discriminate H].
    cbn [mbind res_bind] in H. injection H as <-.
    destruct (IH texts' eq_refl) as [Hlen Hall]. split.
    + cbn [length]. rewrite Hlen. reflexivity.
    + constructor; [eapply text_of_line_normalized, E | exact Hall].
Qed.

(** X16: when [get_texts] yields its texts, there is one text for each line
    of the input files, and each is an output of the Normalizer: its
    blanks are single spaces and no hashtag is left in it. *)
Theorem get_texts_yields_normalized_texts root texts :
  get_texts root = Ok texts ->
  length texts = length (List.concat root)
  /\ Forall (fun text => single_spaced text = true /\ tagless text = true) texts.
Proof.
  unfold get_texts. intros H. apply get_texts_lines_ok in H as [Hlen Hall].
  split; [exact Hlen|]. eapply Forall_impl; [exact Hall|].
  intros text [s ->]. split.
  - unfold clean_line_mod. apply multi_space_sub_single_spaced.
  - unfold clean_line_mod. apply multi_space_sub_tagless, hashtag_sub_is_tagless.
Qed.

(** X17: the first line that cannot be turned into a text decides the
    outcome: its exception is the one raised, whatever the lines after it
    hold. *)
Theorem get_texts_raises_at_first_bad_line root good bad rest texts e :
  List.concat root = good ++ bad :: rest ->
  get_texts_lines good = Ok texts ->
  text_of_line bad = Raise e ->
  get_texts root = Raise e.
Proof.
  unfold get_texts. intros -> Hgood Hbad. clear root.
  revert texts Hgood. induction good as [|line good IH]; intros texts Hgood.
  - cbn [app get_texts_lines]. rewrite Hbad. reflexivity.
  - cbn [app get_texts_lines] in *.
    destruct (text_of_line line) as [text|e']; [|discriminate Hgood].
    cbn [mbind res_bind] in *.
    destruct (get_texts_lines good) as [texts'|e'] eqn:E; [|discriminate Hgood].
    rewrite (IH texts' eq_refl). reflexivity.
Qed.
End InputTexts.

Section DriverWorld.
Context {U : UnicodeData} {mt : MosesTokenizer}.

(** The files at the end of [main], as the updates it makes one after the
    other. *)
Lemma main_world (args : arguments) (fs : gmap path str)
    (root : list (list (option json))) (texts : list str) :
  get_texts root = Ok texts ->
  let pass num_tokens ts := drain num_tokens (tokens_min args) ts in
  let train := pass (Some 2000000) texts in
  let valid := pass (Some 200000) (snd train) in
  let test := pass (Some 200000) (snd valid) in
  let large := pass (Some 98000000) (snd test) in
  let rest := pass None (snd large) in
  let file (tier : arguments -> path) (split : string) :=
    tier args ++ [tokens_file args split] in
  let copies (split : string) (content : str) (m : gmap path str) :=
    <[file all_tweets split := content]>
      (<[file lrg_tweets split := content]>
         (<[file sml_tweets split := content]> m)) in
  exists w,
    main args fs root = Ok w
    /\ files w
       = <[file all_tweets "train"%string := (fst train ++ fst large) ++ fst rest]>
           (<[file all_tweets "train"%string := fst train ++ fst large]>
              (<[file lrg_tweets "train"%string := fst train ++ fst large]>
                 (copies "test"%string (fst test)
                    (copies "valid"%string (fst valid)
                       (copies "train"%string (fst train) fs))))).
Proof.
  intros Htexts pass train valid test large rest file copies.
  unfold main. rewrite Htexts. cbn [mbind res_bind].
  unfold splits, token_nums. cbn [zip_with for_each].
  destruct (split_body_files args {| files := fs; text_iter := texts; stdout := [] |}
              "train" 2000000) as (w1 & E1 & F1 & I1).
  rewrite E1. cbn [mbind res_bind].
  destruct (split_body_files args w1 "valid" 200000) as (w2 & E2 & F2 & I2).
  rewrite E2. cbn [mbind res_bind].
  destruct (split_body_files args w2 "test" 200000) as (w3 & E3 & F3 & I3).
  rewrite E3. cbn [mbind res_bind].
  cbn [text_iter files] in I1, F1.
  rewrite I1 in I2, F2. rewrite I2 in I3, F3.
  destruct (write_tweettext_files (lrg_tweets args ++ [tokens_file args "train"])
              (Some 98000000) A (tokens_min args) w3) as [F4 I4].
  set (w4 := write_tweettext _ (Some 98000000) A (tokens_min args) w3) in *.
  rewrite I3 in F4, I4.
  assert (Hlrg : open_file (files w3) (lrg_tweets args ++ [tokens_file args "train"]) A
                 = fst train).
  { cbn [open_file]. rewrite F3, F2, F1. lookup_files. reflexivity. }
  rewrite Hlrg in F4.
  destruct (copyfile_ok (lrg_tweets args ++ [tokens_file args "train"])
              (all_tweets args ++ [tokens_file args "train"]) w4
              (fst train ++ fst large)) as (w5 & E5 & F5 & I5).
  { rewrite F4. apply lookup_insert_eq. }
  rewrite E5. cbn [mbind res_bind].
  destruct (write_tweettext_files (all_tweets args ++ [tokens_file args "train"])
              None A (tokens_min args) w5) as [F6 I6].
  set (w6 := write_tweettext _ None A (tokens_min args) w5) in *.
  rewrite I5, I4 in F6.
  assert (Hall : open_file (files w5) (all_tweets args ++ [tokens_file args "train"]) A
                 = fst train ++ fst large).
  { cbn [open_file]. rewrite F5, lookup_insert_eq. reflexivity. }
  rewrite Hall in F6.
  exists w6. split; [reflexivity|].
  rewrite F6, F5, F4, F3, F2, F1. reflexivity.
Qed.

Lemma not_in_corpus_files args (p : path) :
  p ∉ corpus_files args ->
  forall tier split,
    tier ∈ [sml_tweets; lrg_tweets; all_tweets] ->
    split ∈ splits ->
    tier args ++ [tokens_file args split] <> p.
Proof.
  intros Hp tier split Htier Hsplit Heq. subst p. apply Hp.
  unfold corpus_files. apply list_elem_of_In, in_flat_map.
  exists tier. split; [apply list_elem_of_In, Htier|].
  apply in_map_iff. exists split. split; [reflexivity | apply list_elem_of_In, Hsplit].
Qed.

(** X18: a run of [main] that ends normally has written the nine files of
    the corpus and no other: any other file is at the end as it was at the
    start. *)
Theorem main_leaves_other_files (args : arguments) (fs : gmap path str)
    (root : list (list (option json))) (w : world) (p : path) :
  main args fs root = Ok w ->
  p ∉ corpus_files args ->
  files w !! p = fs !! p.
Proof.
  intros Hmain Hp.
  destruct (get_texts root) as [texts|e] eqn:Htexts.
  - destruct (main_world args fs root texts Htexts) as (w' & Hmain' & Hfiles).
    rewrite Hmain in Hmain'. injection Hmain' as <-. rewrite Hfiles.
    pose proof (not_in_corpus_files args p Hp) as Hne.
    repeat (rewrite lookup_insert_ne;
            [| apply Hne; [set_solver | unfold splits; set_solver] ]).
    reflexivity.
  - unfold main in Hmain. rewrite Htexts in Hmain. discriminate Hmain.
Qed.

(** X19: in the body of the loop over the splits (lines 138-145) the two
    copies never fail for a missing source, whatever the disk held before:
    the pass of line 139 leaves the small file in place, even when it
    writes nothing.  When the body completes, the small, the large and the
    whole file of the split hold the same text, the one the pass wrote. *)
Theorem split_copies_find_their_source (args : arguments) (w : world)
    (split : string) (token_num : Z) :
  match split_body args w (split, token_num) with
  | Ok w' =>
      Forall (fun tier : arguments -> path =>
                files w' !! (tier args ++ [tokens_file args split])
                = Some (fst (drain (Some token_num) (tokens_min args) (text_iter w))))
        [sml_tweets; lrg_tweets; all_tweets]
  | Raise e => e <> FileNotFoundError
  end.
Proof.
  destruct (split_body_files args w split token_num) as (w' & E & Hfiles & _).
  rewrite E, Hfiles. repeat constructor; lookup_files; reflexivity.
Qed.

End DriverWorld.

(* ===================================================================== *)
(** * Further properties: runs of dots *)
(* ===================================================================== *)

(** A greedy run over one class before a continuation that fails on the
    class: giving characters back does not help, the continuation gets the
    string after the whole run. *)
Lemma star_chr_backtrack {A} (p : char -> bool) (k : str -> option A) :
  (forall c t, p c = true -> k (c :: t) = None) ->
  forall s, exec (Star (Chr p)) k s = k (drop_while p s).
Proof.
  intros Hk s. induction s as [|c s IH]; [reflexivity|].
  rewrite star_chr_cons. cbn [drop_while]. destruct (p c) eqn:Hc; [|reflexivity].
  rewrite IH. destruct (k (drop_while p s)); [reflexivity | apply Hk, Hc].
Qed.

(** A greedy run that reaches a continuation that succeeds. *)
Lemma star_iter_chr_some {A} (p : char -> bool) (k : str -> option A) (a : A) :
  forall fuel s, (length s <= fuel)%nat ->
    k (drop_while p s) = Some a ->
    star_iter (exec (Chr p)) k fuel s = Some a.
Proof.
  induction fuel as [|fuel IH]; intros s Hlen Hk.
  - destruct s; [exact Hk | simpl in Hlen; lia].
  - destruct s as [|c s]; cbn [star_iter exec drop_while] in *; [exact Hk|].
    destruct (p c); [|exact Hk].
    rewrite (proj2 (Nat.ltb_lt (length s) (length (c :: s)))) by (cbn [length]; lia).
    rewrite (IH s); [reflexivity | cbn [length] in Hlen; lia | exact Hk].
Qed.

Lemma exec_star_chr_some {A} (p : char -> bool) (k : str -> option A) (a : A) (s : str) :
  k (drop_while p s) = Some a -> exec (Star (Chr p)) k s = Some a.
Proof. intros Hk. cbn [exec]. apply star_iter_chr_some; [lia | exact Hk]. Qed.

Lemma drop_while_spaces_dots (s : str) :
  drop_while dot_or_space (drop_while is_space s) = drop_while dot_or_space s.
Proof.
  induction s as [|c s IH]; [reflexivity|]. cbn [drop_while].
  destruct (is_space c) eqn:E; [|reflexivity].
  unfold dot_or_space at 2. rewrite E, orb_true_r. exact IH.
Qed.

(** The repeated group of [multi_dot_regex]: from a string that does not
    start with a space it takes every dot and space. *)
Lemma dot_groups : forall fuel t,
  (length t <= fuel)%nat ->
  starts_with is_space t = false ->
  star_iter (exec (Seq (Lit ".") (Star (Lit " ")))) Some fuel t
  = Some (drop_while dot_or_space t).
Proof.
  induction fuel as [|fuel IH]; intros t Hlen Hsp.
  - destruct t; [reflexivity | simpl in Hlen; lia].
  - destruct t as [|c t]; [reflexivity|]. cbn [length] in Hlen.
    cbn [star_iter]. unfold Lit at 1. rewrite exec_seq, exec_chr.
    cbn [starts_with] in Hsp. cbn [drop_while]. unfold dot_or_space at 1.
    rewrite Hsp, orb_false_r. fold is_dot.
    destruct (is_dot c) eqn:Hd; [|reflexivity].
    assert (Hshort : (length (drop_while is_space t) < length (c :: t))%nat).
    { pose proof (drop_while_length is_space t). cbn [length]. lia. }
    unfold Lit at 1. fold is_space.
    erewrite exec_star_chr_some; [reflexivity|].
    rewrite (proj2 (Nat.ltb_lt _ _) Hshort).
    rewrite IH; [rewrite drop_while_spaces_dots; reflexivity | | apply drop_while_head].
    pose proof (drop_while_length is_space t). lia.
Qed.

(** The matcher on [multi_dot_regex] agrees with the reading [dot_at]. *)
Lemma match_dot_at (s : str) : match_at multi_dot_regex s = dot_at s.
Proof.
  unfold match_at, multi_dot_regex, dot_at. rewrite exec_seq.
  unfold Lit at 1. fold is_space. rewrite star_chr_backtrack.
  - destruct (drop_while is_space s) as [|c r]; [reflexivity|].
    unfold Plus. rewrite !exec_seq. unfold Lit at 1. rewrite exec_chr. fold is_dot.
    destruct (is_dot c); [|reflexivity].
    unfold Lit at 1. fold is_space. apply exec_star_chr_some.
    cbn [exec]. rewrite dot_groups; [| lia | apply drop_while_head].
    rewrite drop_while_spaces_dots. reflexivity.
  - intros c t Hc. unfold Plus. rewrite !exec_seq. unfold Lit at 1. rewrite exec_chr.
    apply N.eqb_eq in Hc. subst c. reflexivity.
Qed.

Lemma dot_at_run (run rest : str) :
  forallb dot_or_space run = true ->
  existsb is_dot run = true ->
  starts_with dot_or_space rest = false ->
  dot_at (run ++ rest) = Some rest.
Proof.
  intros Hrun Hdot Hrest. unfold dot_at.
  induction run as [|c run IH]; [discriminate Hdot|].
  cbn [forallb existsb] in Hrun, Hdot. apply andb_true_iff in Hrun as [Hc Hrun].
  cbn [app drop_while]. destruct (is_space c) eqn:Hsp.
  - apply IH; [exact Hrun|].
    apply N.eqb_eq in Hsp. subst c. exact Hdot.
  - unfold dot_or_space in Hc. rewrite Hsp, orb_false_r in Hc. rewrite Hc.
    rewrite drop_while_app by assumption. reflexivity.
Qed.

Lemma first_word_char (p t : str) :
  p <> [] -> last p <> Some (ch " ") ->
  exists c r, drop_while is_space (p ++ t) = c :: r /\ c ∈ p.
Proof.
  induction p as [|c p IH]; [congruence|]. intros _ Hlast.
  cbn [app drop_while]. destruct (is_space c) eqn:Hsp.
  - destruct p as [|c' p].
    + apply N.eqb_eq in Hsp. subst c. cbn in Hlast. congruence.
    + destruct IH as (x & r & E & Hx); [discriminate | exact Hlast |].
      exists x, r. split; [exact E | right; exact Hx].
  - exists c, (p ++ t). split; [reflexivity | left].
Qed.

Lemma multi_dot_skip (pre t : str) :
  ch "." ∉ pre -> last pre <> Some (ch " ") ->
  multi_dot_sub (pre ++ t) = pre ++ multi_dot_sub t.
Proof.
  induction pre as [|c pre IH]; intros Hdot Hlast; [reflexivity|].
  unfold multi_dot_sub, sub_const. cbn [app]. rewrite sub_cons, match_dot_at.
  assert (Hnone : dot_at (c :: pre ++ t) = None).
  { destruct (first_word_char (c :: pre) t) as (x & r & E & Hx);
      [discriminate | exact Hlast |].
    unfold dot_at. cbn [app] in E. rewrite E.
    destruct (is_dot x) eqn:Hd; [|reflexivity].
    apply N.eqb_eq in Hd. subst x. contradiction. }
  rewrite Hnone. cbn [option_map]. f_equal. apply IH.
  - intros H. apply Hdot. right. exact H.
  - destruct pre as [|c' pre]; [discriminate | exact Hlast].
Qed.

(** X20: a run of dots and spaces that holds a dot, between a text that
    does not end with a space and a text that starts with neither, is
    replaced as a whole by a space, a dot and a space. *)
Theorem dot_run_collapsed (pre run rest : str) :
  ch "." ∉ pre ->
  last pre <> Some (ch " ") ->
  forallb dot_or_space run = true ->
  existsb is_dot run = true ->
  starts_with dot_or_space rest = false ->
  multi_dot_sub (pre ++ run ++ rest) = pre ++ py " . " ++ multi_dot_sub rest.
Proof.
  intros Hpre Hlast Hrun Hdot Hrest.
  rewrite multi_dot_skip by assumption. f_equal.
  destruct run as [|c run]; [discriminate Hdot|].
  unfold multi_dot_sub, sub_const. cbn [app]. rewrite sub_cons, match_dot_at.
  change (c :: run ++ rest) with ((c :: run) ++ rest).
  rewrite (dot_at_run _ _ Hrun Hdot Hrest). cbn [option_map].
  rewrite (proj2 (Nat.ltb_lt _ _)); [reflexivity|].
  rewrite length_app. cbn [length]. lia.
Qed.

(* ===================================================================== *)
(** * Further properties: picture links and hashtags *)
(* ===================================================================== *)

Section LinksAndTags.
Context {U : UnicodeData}.

Lemma pic_match_link (s : str) :
  match_at pic_url_regex (py "pic.twitter.com/" ++ s)
  = if starts_with isword s then Some (drop_while isword s) else None.
Proof.
  unfold match_at, pic_url_regex.
  change (exec (Seq (Word "pic.twitter.com/") (Plus (Chr isword))) Some
            (py "pic.twitter.com/" ++ s))
    with (exec (Plus (Chr isword)) Some s).
  destruct s as [|c s]; [reflexivity|].
  rewrite exec_plus_chr by (intros; eexists; reflexivity).
  cbn [starts_with drop_while]. destruct (isword c); reflexivity.
Qed.

Lemma pic_match_first (c : char) (s : str) :
  c <> ch "p" -> match_at pic_url_regex (c :: s) = None.
Proof.
  intros Hc. destruct (match_at pic_url_regex (c :: s)) as [rest|] eqn:E; [|reflexivity].
  exfalso. unfold match_at, pic_url_regex, Word in E.
  cbn [list_ascii_of_string fold_right] in E.
  rewrite !exec_seq in E. unfold Lit in E at 1. rewrite exec_chr in E.
  destruct (chr_eqb (ch "p") c) eqn:Ep; [|discriminate E].
  apply N.eqb_eq in Ep. congruence.
Qed.

(** X21: a picture link is removed with every word character after its
    slash, and with nothing else. *)
Theorem pic_url_sub_takes_the_name (pre name rest : str) :
  ch "p" ∉ pre ->
  name <> [] ->
  forallb isword name = true ->
  starts_with isword rest = false ->
  pic_url_sub (pre ++ py "pic.twitter.com/" ++ name ++ rest) = pre ++ pic_url_sub rest.
Proof.
  intros Hpre Hne Hname Hrest.
  unfold pic_url_sub, sub_const.
  rewrite (sub_skip _ (ch "p")); [| |exact Hpre].
  2:{ intros c s Hc. rewrite pic_match_first by exact Hc. reflexivity. }
  f_equal.
  change (py "pic.twitter.com/" ++ name ++ rest)
    with (ch "p" :: (py "ic.twitter.com/" ++ name ++ rest)).
  rewrite sub_cons.
  change (ch "p" :: (py "ic.twitter.com/" ++ name ++ rest))
    with (py "pic.twitter.com/" ++ name ++ rest).
  rewrite pic_match_link.
  assert (Hstart : starts_with isword (name ++ rest) = true).
  { destruct name as [|c name]; [congruence|]. cbn [forallb] in Hname.
    apply andb_true_iff in Hname as [Hc _]. exact Hc. }
  rewrite Hstart, (drop_while_app isword name rest Hname Hrest). cbn [option_map].
  rewrite (proj2 (Nat.ltb_lt _ _)); [reflexivity|].
  rewrite !length_app. cbn. lia.
Qed.

Lemma take_while_stop (p : char -> bool) (s : str) (x : char) (t : str) :
  p x = false -> take_while p (s ++ x :: t) = take_while p s.
Proof.
  intros Hx. induction s as [|c s IH]; cbn [app take_while]; [rewrite Hx; reflexivity|].
  destruct (p c); [f_equal; exact IH | reflexivity].
Qed.

Lemma take_while_app (p : char -> bool) (s t : str) :
  forallb p s = true -> starts_with p t = false -> take_while p (s ++ t) = s.
Proof.
  intros Hs Ht. induction s as [|c s IH]; simpl.
  - destruct t as [|c t]; [reflexivity|]. simpl in *. rewrite Ht. reflexivity.
  - simpl in Hs. apply andb_true_iff in Hs as [Hc Hs]. rewrite Hc. f_equal. apply IH, Hs.
Qed.

Lemma hashtag_at_stop (p t : str) :
  p <> [] ->
  hashtag_at (p ++ ch "#" :: t) = option_map (fun r => r ++ ch "#" :: t) (hashtag_at p).
Proof.
  intros Hp. destruct p as [|c s]; [congruence|].
  cbn [app hashtag_at]. rewrite take_while_stop by apply isword_hash.
  destruct (_ && _); [|reflexivity].
  rewrite drop_while_stop by apply isword_hash. reflexivity.
Qed.

Lemma hashtag_at_shorter (p rest : str) :
  hashtag_at p = Some rest -> (length rest < length p)%nat.
Proof.
  unfold hashtag_at. destruct p as [|c s]; [discriminate|].
  destruct (_ && _); [|discriminate]. intros [= <-].
  pose proof (drop_while_length isword s). cbn [length]. lia.
Qed.

Lemma hashtag_sub_at (s : str) :
  hashtag_sub s = sub (fun s => option_map (fun rest => (py " ", rest)) (hashtag_at s)) s.
Proof.
  unfold hashtag_sub, sub_const. apply sub_ext. intros t.
  rewrite match_hashtag_at. reflexivity.
Qed.

Lemma hashtag_sub_split (pre t : str) :
  hashtag_sub (pre ++ ch "#" :: t) = hashtag_sub pre ++ hashtag_sub (ch "#" :: t).
Proof.
  rewrite !hashtag_sub_at. apply sub_app_boundary.
  - intros p Hp. rewrite (hashtag_at_stop p t Hp).
    destruct (hashtag_at p); reflexivity.
  - intros p repl rest H. destruct (hashtag_at p) as [r|] eqn:E; [|discriminate H].
    injection H as _ <-. eapply hashtag_at_shorter, E.
Qed.

(** X22: a hashtag whose run of word characters holds an ASCII letter is
    replaced by one space, its text discarded; the text before and after
    it is treated on its own. *)
Theorem hashtag_replaced_by_space (pre tag rest : str) :
  forallb isword tag = true ->
  existsb ascii_letter tag = true ->
  starts_with isword rest = false ->
  hashtag_sub (pre ++ ch "#" :: tag ++ rest)
  = hashtag_sub pre ++ py " " ++ hashtag_sub rest.
Proof.
  intros Htag Hletter Hrest. rewrite hashtag_sub_split. f_equal.
  rewrite hashtag_sub_cons.
  rewrite (take_while_app isword tag rest Htag Hrest), Hletter.
  change (chr_eqb (ch "#") (ch "#")) with true. cbn [andb].
  rewrite (drop_while_app isword tag rest Htag Hrest). reflexivity.
Qed.

(** X23: a hash sign followed by word characters without any ASCII
    letter (digits, underscores, letters of other alphabets) is not a
    hashtag for the pattern: sign and run stay in the text. *)
Theorem hashtag_without_letter_kept (pre tag rest : str) :
  forallb isword tag = true ->
  existsb ascii_letter tag = false ->
  starts_with isword rest = false ->
  hashtag_sub (pre ++ ch "#" :: tag ++ rest)
  = hashtag_sub pre ++ ch "#" :: tag ++ hashtag_sub rest.
Proof.
  intros Htag Hletter Hrest. rewrite hashtag_sub_split. f_equal.
  rewrite hashtag_sub_cons.
  rewrite (take_while_app isword tag rest Htag Hrest), Hletter, andb_false_r.
  f_equal. unfold hashtag_sub, sub_const. apply (sub_skip _ (ch "#")).
  - intros c s Hc. rewrite match_hashtag_at. unfold hashtag_at.
    destruct (chr_eqb (ch "#") c) eqn:E; [|reflexivity].
    apply N.eqb_eq in E. congruence.
  - intros Hin. rewrite forallb_forall in Htag.
    apply list_elem_of_In, Htag in Hin. rewrite isword_hash in Hin. discriminate Hin.
Qed.
End LinksAndTags.

(* ===================================================================== *)
(** * The mention step in the output *)
(* ===================================================================== *)

Section MentionStep.
Context {U : UnicodeData}.

(** ** The replaced handle in the later steps *)

(** A run of word characters that ends inside [s] is not changed by what
    follows [s]. *)
Lemma run_inside (p : char -> bool) (s t : str) :
  forallb p s = false ->
  take_while p (s ++ t) = take_while p s
  /\ drop_while p (s ++ t) = drop_while p s ++ t.
Proof.
  induction s as [|c s IH]; [discriminate|]. cbn [forallb app take_while drop_while].
  destruct (p c); [|intros _; split; reflexivity].
  cbn [andb]. intros H. destruct (IH H) as [-> ->]. split; reflexivity.
Qed.

(** The hashtag step treats a text and what follows it apart, when no
    hash sign of the text is followed by word characters up to its end. *)
Lemma hashtag_sub_app (P X : str) :
  (forall p w, P = p ++ ch "#" :: w -> forallb isword w = false) ->
  hashtag_sub (P ++ X) = hashtag_sub P ++ hashtag_sub X.
Proof.
  remember (length P) as n eqn:Hn. revert P Hn.
  induction n as [n IH] using lt_wf_ind. intros P -> HP.
  destruct P as [|c P]; [reflexivity|].
  cbn [app]. rewrite !hashtag_sub_cons.
  assert (Htail : forall P2, suffix P2 P ->
            forall p w, P2 = p ++ ch "#" :: w -> forallb isword w = false).
  { intros P2 [k ->] p w ->. apply (HP (c :: k ++ p) w).
    cbn [app]. rewrite <- app_assoc. reflexivity. }
  destruct (chr_eqb (ch "#") c) eqn:Ec.
  - apply N.eqb_eq in Ec. subst c.
    destruct (run_inside isword P X (HP [] P eq_refl)) as [-> ->].
    cbn [andb]. destruct (existsb ascii_letter (take_while isword P)).
    + cbn [app]. f_equal. eapply IH; [|reflexivity|].
      * pose proof (drop_while_length isword P). cbn [length]. lia.
      * apply Htail, drop_while_suffix.
    + cbn [app]. f_equal. eapply IH; [|reflexivity|]; [cbn [length]; lia|].
      apply Htail. reflexivity.
  - cbn [andb app]. f_equal. eapply IH; [|reflexivity|]; [cbn [length]; lia|].
    apply Htail. reflexivity.
Qed.

Lemma hashtag_sub_copy (h X : str) :
  forallb isword h = true -> hashtag_sub (h ++ X) = h ++ hashtag_sub X.
Proof.
  induction h as [|c h IH]; [reflexivity|]. cbn [forallb app]. intros H.
  apply andb_true_iff in H as [Hc Hh]. rewrite hashtag_sub_cons.
  destruct (chr_eqb (ch "#") c) eqn:Ec.
  - apply N.eqb_eq in Ec. subst c. rewrite isword_hash in Hc. discriminate Hc.
  - cbn [andb]. f_equal. apply IH, Hh.
Qed.

(** The whitespace step stops at a character that is not a blank. *)
Lemma multi_space_sub_app (A : str) (x : char) (T : str) :
  isspace x = false ->
  multi_space_sub (A ++ x :: T) = multi_space_sub A ++ multi_space_sub (x :: T).
Proof.
  intros Hx. remember (length A) as n eqn:Hn. revert A Hn.
  induction n as [n IH] using lt_wf_ind. intros A ->.
  destruct A as [|c A]; [reflexivity|].
  cbn [app]. rewrite (multi_space_sub_cons c (A ++ x :: T)), (multi_space_sub_cons c A).
  destruct (isspace c).
  - rewrite drop_while_stop by exact Hx. cbn [app]. f_equal.
    eapply IH; [|reflexivity]. pose proof (drop_while_length isspace A).
    cbn [length]. lia.
  - cbn [app]. f_equal. eapply IH; [|reflexivity]. cbn [length]. lia.
Qed.

Lemma multi_space_sub_copy (h X : str) :
  existsb isspace h = false -> multi_space_sub (h ++ X) = h ++ multi_space_sub X.
Proof.
  induction h as [|c h IH]; [reflexivity|]. cbn [existsb app]. intros H.
  apply orb_false_iff in H as [Hc Hh]. rewrite multi_space_sub_cons, Hc.
  f_equal. apply IH, Hh.
Qed.

Lemma clean_mention_letters (h : str) :
  forallb isalpha h = true -> clean_mention h = h.
Proof.
  unfold clean_mention. induction h as [|c h IH]; [reflexivity|].
  cbn [forallb List.map]. intros H. apply andb_true_iff in H as [-> H].
  f_equal. apply IH, H.
Qed.

(** A handle of letters that does not come to stand behind a hash sign
    goes through the last two steps as it is. *)
Lemma handle_survives (P h S : str) :
  h <> [] ->
  forallb isword h = true ->
  existsb isspace h = false ->
  (forall p w, P = p ++ ch "#" :: w -> forallb isword w = false) ->
  multi_space_sub (hashtag_sub (P ++ h ++ S))
  = multi_space_sub (hashtag_sub P) ++ h ++ multi_space_sub (hashtag_sub S).
Proof.
  intros Hne Hw Hsp HP.
  rewrite hashtag_sub_app by exact HP. rewrite hashtag_sub_copy by exact Hw.
  destruct h as [|c h]; [congruence|].
  cbn [existsb] in Hsp. apply orb_false_iff in Hsp as [Hc Hh].
  cbn [app]. rewrite multi_space_sub_app by exact Hc.
  f_equal. change (c :: h ++ hashtag_sub S) with ((c :: h) ++ hashtag_sub S).
  apply multi_space_sub_copy. cbn [existsb]. rewrite Hc, Hh. reflexivity.
Qed.

(** C6, amended: where a mention marker reaches the mention step of the
    Normalizer (an "@", a handle of 1 to 15 word characters, then spaces,
    then colons), that step puts in place of the whole marker the handle
    with every character that is not a letter turned into a space; whether
    spaces stand around it is left open.  So the "@", the spaces and the
    colons of the marker are removed and the letters of the handle stay,
    in order, in the text that leaves the step; the text before and after
    the marker is treated on its own, and the output is what the hashtag
    and whitespace steps make of the whole.  A handle made of letters
    stands in the output as it is, unless it has come to stand behind a
    hash sign and word characters, with which it is removed as a
    hashtag. *)
Theorem mention_marker_replaced (line pre h sp col rest : str) :
  before_mentions line = pre ++ ch "@" :: h ++ sp ++ col ++ rest ->
  is_marker h sp col rest = true ->
  (exists before after : str,
     forallb is_space before = true
     /\ forallb is_space after = true
     /\ clean_line_mod line
        = multi_space_sub
            (hashtag_sub
               (mention_sub pre
                ++ (before
                    ++ List.map (fun c => if isalpha c then c else ch " ") h
                    ++ after)
                ++ mention_sub rest)))
  /\ (forallb isalpha h = true ->
      existsb isspace h = false ->
      (forall p w, mention_sub pre = p ++ ch "#" :: w -> forallb isword w = false) ->
      exists u v, clean_line_mod line = u ++ h ++ v).
Proof.
  intros Hline Hm.
  assert (Hout : clean_line_mod line
                 = multi_space_sub
                     (hashtag_sub (mention_sub pre ++ clean_mention h ++ mention_sub rest))).
  { change (clean_line_mod line)
      with (multi_space_sub (hashtag_sub (mention_sub (before_mentions line)))).
    rewrite Hline, mention_sub_split, (mention_sub_marker _ _ _ _ Hm). reflexivity. }
  split.
  - exists [], []. split; [reflexivity|]. split; [reflexivity|].
    rewrite Hout, app_nil_r. reflexivity.
  - intros Hletters Hblank Hhash.
    unfold is_marker in Hm. rewrite !andb_true_iff in Hm.
    destruct Hm as [[[[[[[Hne Hw] _] _] _] _] _] _].
    rewrite Hout, (clean_mention_letters h Hletters).
    rewrite handle_survives; [eexists _, _; reflexivity | | exact Hw | exact Hblank | exact Hhash].
    destruct h; [discriminate Hne | discriminate].
Qed.
End MentionStep.

(** Witness of [mention_marker_replaced].  In the first text the marker
    of "bob_99" has a space and a colon after the handle; the digits and
    the underscore are turned into spaces, which the last step merges into
    one.  In the second the handle "bob" follows a hashtag and a space,
    and stands in the output. *)
Lemma mention_marker_replaced_witness :
  (exists before after : str,
     forallb is_space before = true
     /\ forallb is_space after = true
     /\ @clean_line_mod ascii_only (py "hi @bob_99 : you")
        = @multi_space_sub ascii_only
            (@hashtag_sub ascii_only
               (@mention_sub ascii_only (py "hi ")
                ++ (before
                    ++ List.map (fun c => if @isalpha ascii_only c then c else ch " ")
                         (py "bob_99")
                    ++ after)
                ++ @mention_sub ascii_only (py " you"))))
  /\ @clean_line_mod ascii_only (py "hi @bob_99 : you") = py "hi bob you"
  /\ (exists u v, @clean_line_mod ascii_only (py "#tag @bob: hi") = u ++ py "bob" ++ v)
  /\ @clean_line_mod ascii_only (py "#tag @bob: hi") = py " bob hi".
Proof.
  split; [|split; [vm_compute; reflexivity | split; [|vm_compute; reflexivity]]].
  - apply (@mention_marker_replaced ascii_only (py "hi @bob_99 : you")
             (py "hi ") (py "bob_99") (py " ") (py ":") (py " you")).
    + vm_compute. reflexivity.
    + vm_compute. reflexivity.
  - apply (@mention_marker_replaced ascii_only (py "#tag @bob: hi")
             (py "#tag ") (py "bob") [] (py ":") (py " hi")).
    + vm_compute. reflexivity.
    + vm_compute. reflexivity.
    + vm_compute. reflexivity.
    + vm_compute. reflexivity.
    + intros p w H. vm_compute in H.
      destruct p as [|c p]; [injection H as <-; vm_compute; reflexivity|].
      injection H as _ H.
      repeat (destruct p as [|? p]; [discriminate H | injection H as _ H]).
      destruct p; discriminate H.
Defined.

(** C6 fails as stated.  The handle is not kept whole: its digits and
    underscores are turned into spaces, so "user_99" leaves "user".  No
    space is put around the replacement, so the handle runs into the next
    word, where the sibling [clean_line] keeps them apart.  A marker after
    a link is removed with the link, and a handle that comes to stand
    behind a hash sign is removed as a hashtag. *)
Lemma mention_counterexample :
  (@clean_line_mod ascii_only (py "@user_99: ok") = py "user ok"
   /\ is_substring (py "user_99") (@clean_line_mod ascii_only (py "@user_99: ok")) = false)
  /\ (@clean_line_mod ascii_only (py "hi @bob hello") = py "hi bobhello"
      /\ @clean_line ascii_only (py "hi @bob hello") = py "hi bob hello")
  /\ @clean_line_mod ascii_only (py "via https://t.co/a @bob") = py "via "
  /\ @clean_line_mod ascii_only (py "#@bob hi") = py " ".
Proof. repeat split; vm_compute; reflexivity. Qed.

(* ===================================================================== *)
(** * A second run of the Normalizer *)
(* ===================================================================== *)

(** A scan that finds no match copies the string. *)
Lemma sub_matchless (m : str -> option (str * str)) (r : regex) :
  (forall t, match_at r t = None -> m t = None) ->
  forall s, matchless r s = true -> sub m s = s.
Proof.
  intros Hm s. induction s as [|c s IH]; [reflexivity|].
  cbn [matchless]. destruct (match_at r (c :: s)) eqn:E; [discriminate|].
  intros H. rewrite sub_cons, (Hm _ E). f_equal. apply IH, H.
Qed.

Lemma sub_const_matchless (r : regex) (repl s : str) :
  matchless r s = true -> sub_const r repl s = s.
Proof. unfold sub_const. apply sub_matchless. intros t ->. reflexivity. Qed.

Lemma dots_apart_head (b b' : bool) (s : str) :
  starts_with is_dot s = false -> dots_apart b s = dots_apart b' s.
Proof.
  destruct s as [|c s]; [reflexivity|]. cbn [starts_with dots_apart].
  intros ->. reflexivity.
Qed.

Lemma dot_at_shorter (s rest : str) :
  dot_at s = Some rest -> (length rest < length s)%nat.
Proof.
  unfold dot_at. pose proof (drop_while_length is_space s) as Hs.
  destruct (drop_while is_space s) as [|c r]; [discriminate|].
  destruct (is_dot c); [|discriminate]. intros [= <-].
  pose proof (drop_while_length dot_or_space r). cbn [length] in Hs. lia.
Qed.

Lemma multi_dot_sub_cons (c : char) (s : str) :
  multi_dot_sub (c :: s)
  = match dot_at (c :: s) with
    | Some rest => py " . " ++ multi_dot_sub rest
    | None => c :: multi_dot_sub s
    end.
Proof.
  unfold multi_dot_sub, sub_const. rewrite sub_cons, match_dot_at.
  destruct (dot_at (c :: s)) as [rest|] eqn:E; [|reflexivity].
  cbn [option_map]. apply dot_at_shorter in E.
  rewrite (proj2 (Nat.ltb_lt _ _) E). reflexivity.
Qed.

Lemma dots_spaced_suffix (s t : str) :
  suffix t s -> dots_spaced s = true -> dots_spaced t = true.
Proof.
  intros [k ->]. induction k as [|c k IH]; [trivial|].
  cbn [app dots_spaced]. intros H. apply andb_true_iff in H as [_ H]. apply IH, H.
Qed.

Lemma dots_spaced_app (a s : str) :
  existsb is_dot a = false -> dots_spaced (a ++ s) = dots_spaced s.
Proof.
  intros Ha. induction a as [|c a IH]; [reflexivity|].
  cbn [existsb] in Ha. apply orb_false_iff in Ha as [Hc Ha].
  cbn [app dots_spaced]. rewrite Hc. cbn [andb]. apply IH, Ha.
Qed.

Section RepeatedRuns.
Context {U : UnicodeData}.

Lemma mention_sub_matchless (s : str) :
  matchless mention_regex s = true -> mention_sub s = s.
Proof.
  unfold mention_sub. apply sub_matchless. intros t H.
  rewrite match_mention_regex in H.
  destruct (match_mention t); [discriminate | reflexivity].
Qed.

Lemma is_space_isspace (c : char) : is_space c = true -> isspace c = true.
Proof. intros H. apply N.eqb_eq in H. subst c. reflexivity. Qed.

(** With single blanks, a text whose dots stand apart is left as it is by
    the dot step: the scan finds each dot with its two spaces and puts the
    same three characters back. *)
Lemma multi_dot_sub_canonical (s : str) :
  single_spaced s = true -> canonical_dots s = true -> multi_dot_sub s = s.
Proof.
  unfold canonical_dots.
  remember (length s) as n eqn:Hn. revert s Hn.
  induction n as [n IH] using lt_wf_ind. intros s -> Hss Hd.
  destruct s as [|c s']; [reflexivity|].
  rewrite multi_dot_sub_cons.
  cbn [dots_apart] in Hd. apply andb_true_iff in Hd as [Hc Hd].
  cbn [single_spaced] in Hss. apply andb_true_iff in Hss as [Hsc Hss].
  destruct (is_dot c) eqn:Edot; [discriminate Hc|]. clear Hc.
  destruct (is_space c) eqn:Esp.
  - rewrite (is_space_isspace _ Esp) in Hsc.
    apply andb_true_iff in Hsc as [_ Hnext]. apply negb_true_iff in Hnext.
    destruct s' as [|d s''].
    + unfold dot_at. cbn [drop_while]. rewrite Esp. reflexivity.
    + cbn [starts_with] in Hnext.
      assert (Hd' : is_space d = false).
      { destruct (is_space d) eqn:E; [|reflexivity].
        apply is_space_isspace in E. congruence. }
      unfold dot_at. cbn [drop_while]. rewrite Esp, Hd'.
      destruct (is_dot d) eqn:Ed.
      * cbn [dots_apart] in Hd. rewrite Ed in Hd. cbn [andb] in Hd.
        apply andb_true_iff in Hd as [Hrun Hd].
        destruct s'' as [|e s3]; [discriminate Hrun|].
        apply andb_true_iff in Hrun as [He Hnodot]. apply negb_true_iff in Hnodot.
        cbn [single_spaced] in Hss. apply andb_true_iff in Hss as [_ Hss].
        apply andb_true_iff in Hss as [Hse Hss].
        rewrite (is_space_isspace _ He) in Hse.
        apply andb_true_iff in Hse as [_ Hnosp]. apply negb_true_iff in Hnosp.
        cbn [dots_apart] in Hd. apply andb_true_iff in Hd as [_ Hd].
        assert (Hstop : starts_with dot_or_space s3 = false).
        { destruct s3 as [|x s3]; [reflexivity|]. cbn [starts_with] in *.
          unfold dot_or_space. rewrite Hnodot. cbn [orb].
          destruct (is_space x) eqn:E; [|reflexivity].
          apply is_space_isspace in E. congruence. }
        cbn [drop_while]. unfold dot_or_space at 1. rewrite He, orb_true_r.
        rewrite (drop_while_none _ _ Hstop).
        apply N.eqb_eq in Esp, Ed, He. subst c d e.
        cbn [app py]. change (py " . " ++ multi_dot_sub s3)
          with (ch " " :: ch "." :: ch " " :: multi_dot_sub s3).
        do 3 f_equal. eapply IH; [|reflexivity | exact Hss |].
        -- cbn [length]. lia.
        -- rewrite <- Hd. apply dots_apart_head, Hnodot.
      * f_equal. eapply IH; [|reflexivity | exact Hss |]; [cbn [length]; lia|].
        rewrite <- Hd. apply dots_apart_head. cbn [starts_with]. exact Ed.
  - unfold dot_at. cbn [drop_while]. rewrite Esp, Edot.
    f_equal. eapply IH; [|reflexivity | exact Hss | exact Hd]. cbn [length]. lia.
Qed.

(** ** Dots in an output

    After the dot step every dot is followed by a space, and the later
    steps keep it so: no picture link can be left in an output. *)

Lemma multi_dot_sub_dots_spaced (s : str) : dots_spaced (multi_dot_sub s) = true.
Proof.
  remember (length s) as n eqn:Hn. revert s Hn.
  induction n as [n IH] using lt_wf_ind. intros s ->.
  destruct s as [|c s]; [reflexivity|]. rewrite multi_dot_sub_cons.
  destruct (dot_at (c :: s)) as [rest|] eqn:E.
  - apply dot_at_shorter in E.
    change (dots_spaced (py " . " ++ multi_dot_sub rest))
      with (dots_spaced (multi_dot_sub rest)).
    eapply IH; [exact E | reflexivity].
  - cbn [dots_spaced]. unfold dot_at in E. cbn [drop_while] in E.
    destruct (is_dot c) eqn:Ec.
    + destruct (is_space c) eqn:Esp.
      * apply N.eqb_eq in Ec. subst c. vm_compute in Esp. discriminate Esp.
      * rewrite Ec in E. discriminate E.
    + cbn [andb]. eapply IH; [|reflexivity]. cbn [length]. lia.
Qed.

Lemma clean_mention_no_dot (g : str) : existsb is_dot (clean_mention g) = false.
Proof.
  unfold clean_mention. induction g as [|c g IH]; [reflexivity|].
  cbn [List.map existsb]. rewrite IH, orb_false_r.
  destruct (isalpha c) eqn:E; [|reflexivity].
  destruct (is_dot c) eqn:Ed; [|reflexivity].
  apply N.eqb_eq in Ed. subst c. discriminate E.
Qed.

Lemma mention_sub_cons (c : char) (s : str) :
  mention_sub (c :: s)
  = match mention_at (c :: s) with
    | Some (g, rest) => clean_mention g ++ mention_sub rest
    | None => c :: mention_sub s
    end.
Proof.
  rewrite mention_sub_at, sub_cons.
  destruct (mention_at (c :: s)) as [[g rest]|] eqn:E.
  - cbn [option_map fst snd]. apply mention_at_shorter in E.
    rewrite (proj2 (Nat.ltb_lt _ _) E), (mention_sub_at rest). reflexivity.
  - rewrite (mention_sub_at s). reflexivity.
Qed.

Lemma mention_sub_space (s : str) :
  starts_with is_space s = true -> starts_with is_space (mention_sub s) = true.
Proof.
  destruct s as [|c s]; [discriminate|]. cbn [starts_with]. intros Hc.
  rewrite mention_sub_cons. unfold mention_at.
  apply N.eqb_eq in Hc. subst c.
  destruct s as [|c1 s2]; [reflexivity|].
  change (chr_eqb (ch "@") (ch " ")) with false. reflexivity.
Qed.

Lemma mention_sub_dots_spaced (s : str) :
  dots_spaced s = true -> dots_spaced (mention_sub s) = true.
Proof.
  remember (length s) as n eqn:Hn. revert s Hn.
  induction n as [n IH] using lt_wf_ind. intros s -> Hs.
  destruct s as [|c s]; [reflexivity|]. rewrite mention_sub_cons.
  destruct (mention_at (c :: s)) as [[g rest]|] eqn:E.
  - rewrite dots_spaced_app by apply clean_mention_no_dot.
    eapply IH; [eapply mention_at_shorter, E | reflexivity |].
    eapply dots_spaced_suffix; [|exact Hs]. eapply mention_at_suffix, E.
  - cbn [dots_spaced] in *. apply andb_true_iff in Hs as [Hc Hs].
    apply andb_true_iff. split.
    + destruct (is_dot c); [|reflexivity]. apply mention_sub_space, Hc.
    + eapply IH; [|reflexivity | exact Hs]. cbn [length]. lia.
Qed.

Lemma hashtag_sub_dots_spaced (s : str) :
  dots_spaced s = true -> dots_spaced (hashtag_sub s) = true.
Proof.
  remember (length s) as n eqn:Hn. revert s Hn.
  induction n as [n IH] using lt_wf_ind. intros s -> Hs.
  destruct s as [|c s]; [reflexivity|]. rewrite hashtag_sub_cons.
  cbn [dots_spaced] in Hs. apply andb_true_iff in Hs as [Hc Hs].
  destruct (chr_eqb (ch "#") c && _) eqn:Hm.
  - change (dots_spaced (ch " " :: hashtag_sub (drop_while isword s)))
      with (dots_spaced (hashtag_sub (drop_while isword s))).
    eapply IH; [|reflexivity|].
    + pose proof (drop_while_length isword s). cbn [length]. lia.
    + eapply dots_spaced_suffix; [apply drop_while_suffix | exact Hs].
  - cbn [dots_spaced]. apply andb_true_iff. split.
    + destruct (is_dot c); [|reflexivity].
      destruct s as [|e s]; [discriminate Hc|]. cbn [starts_with] in Hc.
      rewrite hashtag_sub_cons. apply N.eqb_eq in Hc. subst e.
      change (chr_eqb (ch "#") (ch " ")) with false. reflexivity.
    + eapply IH; [|reflexivity | exact Hs]. cbn [length]. lia.
Qed.

Lemma multi_space_sub_dots_spaced (s : str) :
  dots_spaced s = true -> dots_spaced (multi_space_sub s) = true.
Proof.
  remember (length s) as n eqn:Hn. revert s Hn.
  induction n as [n IH] using lt_wf_ind. intros s -> Hs.
  destruct s as [|c s]; [reflexivity|]. rewrite multi_space_sub_cons.
  cbn [dots_spaced] in Hs. apply andb_true_iff in Hs as [Hc Hs].
  destruct (isspace c) eqn:Hsp.
  - change (dots_spaced (ch " " :: multi_space_sub (drop_while isspace s)))
      with (dots_spaced (multi_space_sub (drop_while isspace s))).
    eapply IH; [|reflexivity|].
    + pose proof (drop_while_length isspace s). cbn [length]. lia.
    + eapply dots_spaced_suffix; [apply drop_while_suffix | exact Hs].
  - cbn [dots_spaced]. apply andb_true_iff. split.
    + destruct (is_dot c); [|reflexivity].
      destruct s as [|e s]; [discriminate Hc|]. cbn [starts_with] in Hc.
      rewrite multi_space_sub_cons, (is_space_isspace _ Hc). reflexivity.
    + eapply IH; [|reflexivity | exact Hs]. cbn [length]. lia.
Qed.

Lemma normalizer_output_dots_spaced (line : str) :
  dots_spaced (clean_line_mod line) = true.
Proof.
  unfold clean_line_mod.
  apply multi_space_sub_dots_spaced, hashtag_sub_dots_spaced,
    mention_sub_dots_spaced, multi_dot_sub_dots_spaced.
Qed.

(** A picture link starts with its fixed text. *)
Lemma pic_match_prefix (t rest : str) :
  match_at pic_url_regex t = Some rest ->
  exists u, t = py "pic.twitter.com/" ++ u.
Proof.
  unfold match_at, pic_url_regex, Word. cbn [list_ascii_of_string fold_right].
  intros H.
  repeat (rewrite ?exec_seq in H; unfold Lit in H at 1;
          destruct t as [|? t]; [discriminate H|];
          rewrite exec_chr in H;
          match type of H with
          | (if chr_eqb ?a ?b then _ else _) = _ =>
              destruct (chr_eqb a b) eqn:?E; [apply N.eqb_eq in E; subst | discriminate H]
          end).
  eexists. reflexivity.
Qed.

Lemma dots_spaced_no_picture (s : str) :
  dots_spaced s = true -> matchless pic_url_regex s = true.
Proof.
  induction s as [|c s IH]; [reflexivity|]. intros Hs.
  cbn [matchless]. destruct (match_at pic_url_regex (c :: s)) as [rest|] eqn:E.
  - apply pic_match_prefix in E as [u E]. rewrite E in Hs.
    vm_compute in Hs. discriminate Hs.
  - apply IH. cbn [dots_spaced] in Hs. apply andb_true_iff in Hs as [_ Hs]. exact Hs.
Qed.
End RepeatedRuns.

Section SecondRun.
Context {U : UnicodeData}.

(** C7, amended: running the Normalizer on one of its outputs gives that
    output again whenever the output does not begin with the repost
    marker, no link and no mention marker is left in it (the link pattern
    and the mention pattern match nowhere in it), and every dot in it
    stands between two spaces, the second of which is not followed by
    another dot.  Dots, colons and "@" signs that fit this may be there. *)
Theorem normalizer_idempotent_on_clean_output (line : str) :
  take 3 (clean_line_mod line) <> py "RT " ->
  matchless url_regex (clean_line_mod line) = true ->
  canonical_dots (clean_line_mod line) = true ->
  matchless mention_regex (clean_line_mod line) = true ->
  clean_line_mod (clean_line_mod line) = clean_line_mod line.
Proof.
  intros Hrt Hurl Hdots Hmention.
  pose proof (normalizer_output_dots_spaced line) as Hspaced.
  assert (Hsingle : single_spaced (clean_line_mod line) = true)
    by (unfold clean_line_mod; apply multi_space_sub_single_spaced).
  assert (Htag : tagless (clean_line_mod line) = true)
    by (unfold clean_line_mod; apply multi_space_sub_tagless, hashtag_sub_is_tagless).
  set (out := clean_line_mod line) in *.
  change (clean_line_mod out)
    with (multi_space_sub (hashtag_sub (mention_sub
            (multi_dot_sub (pic_url_sub (url_sub (strip_rt out))))))).
  assert (strip_rt out = out) as ->.
  { unfold strip_rt. destruct (decide (take 3 out = py "RT ")); [contradiction | reflexivity]. }
  unfold url_sub, pic_url_sub.
  rewrite (sub_const_matchless url_regex) by exact Hurl.
  rewrite (sub_const_matchless pic_url_regex) by apply dots_spaced_no_picture, Hspaced.
  rewrite multi_dot_sub_canonical by assumption.
  rewrite mention_sub_matchless by exact Hmention.
  rewrite hashtag_sub_tagless by exact Htag.
  apply multi_space_sub_fixed, Hsingle.
Qed.
End SecondRun.

(** Witness of [normalizer_idempotent_on_clean_output]: an output that
    holds a dot, a colon and an "@". *)
Lemma normalizer_idempotent_on_clean_output_witness :
  @clean_line_mod ascii_only
    (py "RT @bob: I like it. Time: 5pm, mail me @ home https://t.co/x")
  = py "bob I like it . Time: 5pm, mail me @ home "
  /\ @clean_line_mod ascii_only
       (@clean_line_mod ascii_only
          (py "RT @bob: I like it. Time: 5pm, mail me @ home https://t.co/x"))
     = @clean_line_mod ascii_only
         (py "RT @bob: I like it. Time: 5pm, mail me @ home https://t.co/x").
Proof.
  split; [vm_compute; reflexivity|].
  apply (@normalizer_idempotent_on_clean_output ascii_only).
  - vm_compute. discriminate.
  - vm_compute. reflexivity.
  - vm_compute. reflexivity.
  - vm_compute. reflexivity.
Defined.

(** C7 fails as stated: only one repost marker is removed per run, so a
    second run removes the next one.  A second run also changes an output
    in which the removal of a picture link has put a link together, one in
    which a mention has taken the space before a dot, one in which a
    mention has left two dots side by side, and one in which a mention was
    preceded by a lone "@". *)
Lemma normalizer_not_idempotent :
  (@clean_line_mod ascii_only (py "RT RT hello") = py "RT hello"
   /\ @clean_line_mod ascii_only (py "RT hello") = py "hello")
  /\ (@clean_line_mod ascii_only (py "httppic.twitter.com/x://a") = py "http://a"
      /\ @clean_line_mod ascii_only (py "http://a") = [])
  /\ (@clean_line_mod ascii_only (py "@bob .") = py "bob. "
      /\ @clean_line_mod ascii_only (py "bob. ") = py "bob . ")
  /\ (@clean_line_mod ascii_only (py "x.@1.y") = py "x . . y"
      /\ @clean_line_mod ascii_only (py "x . . y") = py "x . y")
  /\ (@clean_line_mod ascii_only (py "@@bob") = py "@bob"
      /\ @clean_line_mod ascii_only (py "@bob") = py "bob")
  /\ @clean_line_mod ascii_only (@clean_line_mod ascii_only (py "RT RT hello"))
     <> @clean_line_mod ascii_only (py "RT RT hello").
Proof. repeat split; vm_compute; try reflexivity. discriminate. Qed.

Section DriverEdge.
Context {U : UnicodeData} {mt : MosesTokenizer}.

Lemma loop_all_rejected num_tokens num_tokens_tweet_min texts :
  Forall (fun text => accepted num_tokens_tweet_min text = false) texts ->
  forall idx st, exists st',
    loop num_tokens num_tokens_tweet_min idx texts st = (st', [], false)
    /\ f_out st' = f_out st.
Proof.
  induction texts as [|text texts IH]; intros Hall idx st.
  - exists st. split; reflexivity.
  - apply Forall_cons in Hall as [Hrej Hall]. apply accepted_false in Hrej.
    cbn [loop]. rewrite body_rejected by exact Hrej.
    destruct (IH Hall (idx + 1)
                {| f_out := f_out st; total_num_tokens := total_num_tokens st;
                   i := idx; printed := printed st |}) as (st' & E & Hout).
    exists st'. split; [exact E | exact Hout].
Qed.

Lemma drain_rejected num_tokens num_tokens_tweet_min texts :
  Forall (fun text => accepted num_tokens_tweet_min text = false) texts ->
  drain num_tokens num_tokens_tweet_min texts = ([], []).
Proof.
  intros Hall. unfold drain.
  destruct (loop_all_rejected num_tokens num_tokens_tweet_min texts Hall 0 fresh)
    as (st' & -> & Hout).
  rewrite Hout. reflexivity.
Qed.

(** With a threshold of one or less every text is accepted. *)
Lemma lines_of_low_threshold num_tokens_tweet_min texts :
  num_tokens_tweet_min <= 1 ->
  lines_of num_tokens_tweet_min texts = List.concat (List.map line_of texts).
Proof.
  intros Hmin. unfold lines_of. f_equal. f_equal.
  induction texts as [|text texts IH]; [reflexivity|]. cbn [List.filter].
  assert (accepted num_tokens_tweet_min text = true) as ->.
  { apply accepted_true. unfold num_tokens_tweet_of. lia. }
  f_equal. exact IH.
Qed.

(** X24: the accounted count of a text is at least one, so with a
    threshold of one or less nothing is rejected: a pass without budget on
    a new file writes one line for each text, empty texts included. *)
Theorem low_threshold_writes_every_text file_path num_tokens_tweet_min w :
  num_tokens_tweet_min <= 1 ->
  files (write_tweettext file_path None W num_tokens_tweet_min w) !! file_path
  = Some (List.concat (List.map line_of (text_iter w))).
Proof.
  intros Hmin. unfold write_tweettext.
  destruct (loop_unbounded num_tokens_tweet_min (text_iter w) 0 (start w file_path W))
    as [st E].
  rewrite E. apply loop_account in E as (drawn & Hdrawn & Hout & _).
  rewrite app_nil_r in Hdrawn. subst drawn.
  cbn [finish files]. rewrite lookup_insert_eq, Hout.
  rewrite lines_of_low_threshold by exact Hmin. reflexivity.
Qed.

(** X25: on an input without a record that passes the gate, and so on an
    empty input directory, [main] still creates the nine files of the
    corpus, all empty. *)
Theorem main_on_rejected_input (args : arguments) (fs : gmap path str)
    (root : list (list (option json))) (texts : list str) :
  get_texts root = Ok texts ->
  Forall (fun text => accepted (tokens_min args) text = false) texts ->
  exists w,
    main args fs root = Ok w
    /\ Forall (fun p => files w !! p = Some []) (corpus_files args).
Proof.
  intros Htexts Hall.
  destruct (main_world args fs root texts Htexts) as (w & Hmain & Hfiles).
  exists w. split; [exact Hmain|].
  cbv zeta in Hfiles.
  rewrite (drain_rejected _ _ texts Hall) in Hfiles. cbn [fst snd] in Hfiles.
  assert (Hnil : forall num_tokens, drain num_tokens (tokens_min args) [] = ([], []))
    by reflexivity.
  repeat (rewrite Hnil in Hfiles; cbn [fst snd] in Hfiles). cbn [app] in Hfiles.
  unfold corpus_files, splits. cbn [flat_map List.map app].
  rewrite Hfiles. repeat constructor; lookup_files; reflexivity.
Qed.
End DriverEdge.

(* ===================================================================== *)
(** * Witnesses of the further properties *)
(* ===================================================================== *)

(** A character is not in a given text. *)
Ltac not_in_text :=
  let H := fresh "H" in
  intros H; apply list_elem_of_In in H; vm_compute in H; intuition discriminate.

(** Witness of [normalizer_output_has_no_hashtag]: the whole output. *)
Lemma normalizer_output_has_no_hashtag_witness :
  match_at (@hashtag_regex ascii_only) (@clean_line_mod ascii_only (py "a #tag #12 b")) = None
  /\ @hashtag_sub ascii_only (@clean_line_mod ascii_only (py "a #tag #12 b"))
     = @clean_line_mod ascii_only (py "a #tag #12 b").
Proof.
  apply (@normalizer_output_has_no_hashtag ascii_only (py "a #tag #12 b")).
  exists []. reflexivity.
Defined.

(** Witness of [normalizer_adds_only_spaces]: a letter of the output. *)
Lemma normalizer_adds_only_spaces_witness :
  ch "b" ∈ py "#a b" \/ ch "b" = ch " ".
Proof.
  apply (@normalizer_adds_only_spaces ascii_only (py "#a b") (ch "b")).
  vm_compute. repeat constructor.
Defined.

(** Witness of [plain_text_unchanged]. *)
Lemma plain_text_unchanged_witness :
  @clean_line_mod ascii_only (py "hello world #123") = py "hello world #123".
Proof.
  apply (@plain_text_unchanged ascii_only).
  - vm_compute. discriminate.
  - repeat constructor; not_in_text.
  - vm_compute. reflexivity.
  - vm_compute. reflexivity.
Defined.

(** Witness of [normalizers_agree_without_mentions]. *)
Lemma normalizers_agree_without_mentions_witness :
  @clean_line ascii_only (py "RT wait... #tag https://t.co/x ok")
  = @clean_line_mod ascii_only (py "RT wait... #tag https://t.co/x ok").
Proof.
  apply (@normalizers_agree_without_mentions ascii_only). not_in_text.
Defined.

(** Witness of [clean_line_keeps_handle]: the marker of "bob_99". *)
Lemma clean_line_keeps_handle_witness :
  @clean_line ascii_only (py "hi @bob_99 : you")
  = @multi_space_sub ascii_only
      (@hashtag_sub ascii_only
         (@mention_sub_template ascii_only (py "hi ") ++ (py " " ++ py "bob_99" ++ py " ")
          ++ @mention_sub_template ascii_only (py " you"))).
Proof.
  apply (@clean_line_keeps_handle ascii_only (py "hi @bob_99 : you")
           (py "hi ") (py "bob_99") (py " ") (py ":") (py " you")).
  - vm_compute. reflexivity.
  - vm_compute. reflexivity.
Defined.

(** Witness of [url_sub_takes_whole_run]. *)
Lemma url_sub_takes_whole_run_witness :
  url_sub (py "look " ++ py "http://" ++ py "t.co/abc see (this)" ++ py "#tag")
  = py "look " ++ url_sub (py "#tag")
  /\ url_sub (py "look " ++ py "https://" ++ py "t.co/abc see (this)" ++ py "#tag")
     = py "look " ++ url_sub (py "#tag").
Proof.
  apply (url_sub_takes_whole_run (py "look ") (py "t.co/abc see (this)") (py "#tag")).
  - not_in_text.
  - discriminate.
  - vm_compute. reflexivity.
  - vm_compute. reflexivity.
Defined.

(** Witness of [overshoot_within_last_record], on the five texts: the pass
    with a budget of 30 stops after the third, which is its second
    accepted one. *)
Lemma overshoot_within_last_record_witness :
  exists drawn text,
    scenario_texts
    = drawn ++ text
        :: snd (fst (@loop ascii_only verbatim (Some 30) 10 0 scenario_texts fresh))
    /\ @accepted ascii_only verbatim 10 text = true
    /\ f_out (fst (fst (@loop ascii_only verbatim (Some 30) 10 0 scenario_texts fresh)))
       = f_out fresh ++ @lines_of ascii_only verbatim 10 drawn
         ++ @line_of ascii_only verbatim text
    /\ total_num_tokens
         (fst (fst (@loop ascii_only verbatim (Some 30) 10 0 scenario_texts fresh)))
       = total_num_tokens fresh + @count_of ascii_only verbatim 10 drawn
         + (@num_tokens_tweet_of ascii_only verbatim text + 1)
    /\ total_num_tokens fresh + @count_of ascii_only verbatim 10 drawn <= 30
    /\ 30 < total_num_tokens
              (fst (fst (@loop ascii_only verbatim (Some 30) 10 0 scenario_texts fresh))).
Proof.
  pose proof (@overshoot_within_last_record ascii_only verbatim 30 10 0
                scenario_texts fresh) as H.
  assert (Hb : snd (@loop ascii_only verbatim (Some 30) 10 0 scenario_texts fresh) = true)
    by (vm_compute; reflexivity).
  rewrite Hb in H. apply H. vm_compute. discriminate.
Defined.

(** Witness of [write_tweettext_touches_one_file]. *)
Lemma write_tweettext_touches_one_file_witness :
  files (@write_tweettext ascii_only verbatim out_tokens (Some 30) W 10
           (world_of scenario_texts)) !! ["notes.txt"%string]
  = files (world_of scenario_texts) !! ["notes.txt"%string]
  /\ suffix (text_iter (@write_tweettext ascii_only verbatim out_tokens (Some 30) W 10
                          (world_of scenario_texts)))
       (text_iter (world_of scenario_texts))
  /\ prefix (stdout (world_of scenario_texts))
       (stdout (@write_tweettext ascii_only verbatim out_tokens (Some 30) W 10
                  (world_of scenario_texts))).
Proof.
  apply (@write_tweettext_touches_one_file ascii_only verbatim out_tokens (Some 30) W 10
           (world_of scenario_texts) ["notes.txt"%string]).
  discriminate.
Defined.

(** Witness of [get_texts_yields_normalized_texts]. *)
Lemma get_texts_yields_normalized_texts_witness :
  length [words 11; words 4; words 19] = length (List.concat sample_root)
  /\ Forall (fun text => @single_spaced ascii_only text = true
                         /\ @tagless ascii_only text = true)
       [words 11; words 4; words 19].
Proof.
  apply (@get_texts_yields_normalized_texts ascii_only sample_root).
  vm_compute. reflexivity.
Defined.

(** Witness of [get_texts_raises_at_first_bad_line]: a line that is not
    JSON between two records. *)
Lemma get_texts_raises_at_first_bad_line_witness :
  @get_texts ascii_only
    [[Some (plain_tweet (words 11)); None]; [Some (plain_tweet (words 4))]]
  = Raise JSONDecodeError.
Proof.
  apply (@get_texts_raises_at_first_bad_line ascii_only
           [[Some (plain_tweet (words 11)); None]; [Some (plain_tweet (words 4))]]
           [Some (plain_tweet (words 11))] None [Some (plain_tweet (words 4))]
           [words 11] JSONDecodeError).
  - reflexivity.
  - vm_compute. reflexivity.
  - reflexivity.
Defined.

(** Witness of [main_leaves_other_files]: a file of notes next to the
    corpus. *)
Lemma main_leaves_other_files_witness :
  exists w,
    @main ascii_only verbatim sample_args (<[["notes.txt"%string] := py "keep"]> ∅)
      sample_root = Ok w
    /\ files w !! ["notes.txt"%string]
       = (<[["notes.txt"%string] := py "keep"]> ∅ : gmap path str) !! ["notes.txt"%string].
Proof.
  eexists. split; [vm_compute; reflexivity|].
  apply (@main_leaves_other_files ascii_only verbatim sample_args
           (<[["notes.txt"%string] := py "keep"]> ∅) sample_root).
  - vm_compute. reflexivity.
  - not_in_text.
Defined.

(** Witness of [dot_run_collapsed]. *)
Lemma dot_run_collapsed_witness :
  multi_dot_sub (py "so wait" ++ py " . .. " ++ py "what")
  = py "so wait" ++ py " . " ++ multi_dot_sub (py "what").
Proof.
  apply (dot_run_collapsed (py "so wait") (py " . .. ") (py "what")).
  - not_in_text.
  - vm_compute. discriminate.
  - vm_compute. reflexivity.
  - vm_compute. reflexivity.
  - vm_compute. reflexivity.
Defined.

(** Witness of [pic_url_sub_takes_the_name]. *)
Lemma pic_url_sub_takes_the_name_witness :
  @pic_url_sub ascii_only (py "see " ++ py "pic.twitter.com/" ++ py "aB_9" ++ py "-x")
  = py "see " ++ @pic_url_sub ascii_only (py "-x").
Proof.
  apply (@pic_url_sub_takes_the_name ascii_only (py "see ") (py "aB_9") (py "-x")).
  - not_in_text.
  - discriminate.
  - vm_compute. reflexivity.
  - vm_compute. reflexivity.
Defined.

(** Witness of [hashtag_replaced_by_space]. *)
Lemma hashtag_replaced_by_space_witness :
  @hashtag_sub ascii_only (py "a " ++ ch "#" :: py "2day_" ++ py " b")
  = @hashtag_sub ascii_only (py "a ") ++ py " " ++ @hashtag_sub ascii_only (py " b").
Proof.
  apply (@hashtag_replaced_by_space ascii_only (py "a ") (py "2day_") (py " b")).
  - vm_compute. reflexivity.
  - vm_compute. reflexivity.
  - vm_compute. reflexivity.
Defined.

(** Witness of [hashtag_without_letter_kept]. *)
Lemma hashtag_without_letter_kept_witness :
  @hashtag_sub ascii_only (py "a " ++ ch "#" :: py "2020_" ++ py " b")
  = @hashtag_sub ascii_only (py "a ") ++ ch "#" :: py "2020_"
    ++ @hashtag_sub ascii_only (py " b").
Proof.
  apply (@hashtag_without_letter_kept ascii_only (py "a ") (py "2020_") (py " b")).
  - vm_compute. reflexivity.
  - vm_compute. reflexivity.
  - vm_compute. reflexivity.
Defined.

(** Witness of [low_threshold_writes_every_text]: a text and an empty one. *)
Lemma low_threshold_writes_every_text_witness :
  files (@write_tweettext ascii_only verbatim out_tokens None W 1
           (world_of [words 2; []])) !! out_tokens
  = Some (List.concat (List.map (@line_of ascii_only verbatim)
                         (text_iter (world_of [words 2; []])))).
Proof.
  apply (@low_threshold_writes_every_text ascii_only verbatim out_tokens 1
           (world_of [words 2; []])).
  lia.
Defined.

(** Witness of [main_on_rejected_input]: an empty input directory. *)
Lemma main_on_rejected_input_witness :
  exists w,
    @main ascii_only verbatim sample_args ∅ [] = Ok w
    /\ Forall (fun p => files w !! p = Some []) (corpus_files sample_args).
Proof.
  apply (@main_on_rejected_input ascii_only verbatim sample_args ∅ [] []).
  - reflexivity.
  - constructor.
Defined.
